(** * PennyPilot: transaction actions (create / get / update / list)

    Shallow embedding of the server actions of
    [src/app/(main)/transaction/create/page.jsx] (the ["use server"] part:
    [createTransaction], [getTransaction], [updateTransaction],
    [getUserTransactions], [calculateNextRecurringDate]) and of the balance
    computation of [src/prisma/seed.js].

    Modelling conventions.
    - Money.  The actions are modelled on whole-number amounts: [data.amount]
      (a JavaScript number) and the [Decimal] columns are values of [Z].  A
      number is written in its decimal form, the form in which the Prisma
      client sends it to the store; the store adds decimals exactly, and
      negation is exact on numbers.  The one computation the actions do on
      numbers, [newChange - oldChange], is binary64 arithmetic and is
      modelled as such ([number_sub]): it is exact below [2^53] and rounds
      above.  The seeding script computes on fractions ([Math.random() * 500]);
      its amounts and its running total are binary64 values ([float]).
    - Strings stay strings: [data.type === "EXPENSE"] is [String.eqb].
    - [Date] objects are their time value: [Some t] with [t] in milliseconds
      since the epoch, [None] for an Invalid Date (time value NaN).  The
      getters and setters follow ECMA-262 (Day, TimeWithinDay, YearFromTime,
      MonthFromTime, DateFromTime, MakeDay, MakeDate, TimeClip).  Local time
      is UTC shifted by a constant offset [LocalTZA] supplied by the
      environment (no daylight-saving changes).
    - The Prisma client is a store of three tables held in [gmap]s; an
      interactive [db.$transaction] commits the writes of its callback when
      the callback returns and discards them when it throws.
    - A JavaScript computation either completes normally or throws; the
      thrown value is represented by its [message]. *)

From Stdlib Require Import ZArith Lia Bool Sorted.
From Stdlib Require Import PrimFloat Uint63 SpecFloat FloatOps.
From stdpp Require Import gmap strings list fin_maps.

Local Open Scope Z_scope.

(* ===================================================================== *)
(** ** The built-in [Date] object (ECMA-262, section "Date Objects")      *)
(* ===================================================================== *)

Module Date.

(** A Date is its time value; [None] is NaN (Invalid Date). *)
Definition t : Type := option Z.

Definition msPerDay : Z := 86400000.

Definition Day (tv : Z) : Z := tv / msPerDay.
Definition TimeWithinDay (tv : Z) : Z := tv mod msPerDay.

Definition DaysInYear (y : Z) : Z :=
  if negb (y mod 4 =? 0) then 365
  else if negb (y mod 100 =? 0) then 366
  else if negb (y mod 400 =? 0) then 365
  else 366.

Definition DayFromYear (y : Z) : Z :=
  365 * (y - 1970) + (y - 1969) / 4 - (y - 1901) / 100 + (y - 1601) / 400.

Definition TimeFromYear (y : Z) : Z := msPerDay * DayFromYear y.

(** The largest [y] with [TimeFromYear y <= tv]: a first estimate from the
    mean length of a year (146097 days in 400 years), corrected by one. *)
Definition YearFromTime (tv : Z) : Z :=
  let d := Day tv in
  let y := 1970 + (400 * d) / 146097 in
  if d <? DayFromYear y then y - 1
  else if DayFromYear (y + 1) <=? d then y + 1
  else y.

Definition InLeapYear (tv : Z) : Z :=
  if DaysInYear (YearFromTime tv) =? 366 then 1 else 0.

Definition DayWithinYear (tv : Z) : Z :=
  Day tv - DayFromYear (YearFromTime tv).

(** Number of days of the year that precede month [m] (0 = January). *)
Definition monthStart (leap m : Z) : Z :=
  match m with
  | 0 => 0
  | 1 => 31
  | 2 => 59 + leap
  | 3 => 90 + leap
  | 4 => 120 + leap
  | 5 => 151 + leap
  | 6 => 181 + leap
  | 7 => 212 + leap
  | 8 => 243 + leap
  | 9 => 273 + leap
  | 10 => 304 + leap
  | 11 => 334 + leap
  | _ => 365 + leap
  end.

Definition MonthFromTime (tv : Z) : Z :=
  let d := DayWithinYear tv in
  let leap := InLeapYear tv in
  if d <? 31 then 0
  else if d <? 59 + leap then 1
  else if d <? 90 + leap then 2
  else if d <? 120 + leap then 3
  else if d <? 151 + leap then 4
  else if d <? 181 + leap then 5
  else if d <? 212 + leap then 6
  else if d <? 243 + leap then 7
  else if d <? 273 + leap then 8
  else if d <? 304 + leap then 9
  else if d <? 334 + leap then 10
  else 11.

Definition DateFromTime (tv : Z) : Z :=
  DayWithinYear tv - monthStart (InLeapYear tv) (MonthFromTime tv) + 1.

(** [MakeDay(year, month, date)]: the day number of the first of the
    month [month mod 12] of year [year + floor(month / 12)], plus
    [date - 1]. *)
Definition MakeDay (year month date : Z) : Z :=
  let ym := year + month / 12 in
  let mn := month mod 12 in
  let leap := if DaysInYear ym =? 366 then 1 else 0 in
  DayFromYear ym + monthStart leap mn + date - 1.

Definition MakeDate (day time : Z) : Z := day * msPerDay + time.

Definition maxTime : Z := 8640000000000000.

Definition TimeClip (time : Z) : t :=
  if maxTime <? Z.abs time then None else Some time.

Section LocalZone.
Variable LocalTZA : Z.

Definition LocalTime (tv : Z) : Z := tv + LocalTZA.
Definition UTC (tv : Z) : Z := tv - LocalTZA.

(** [new Date(value)] for a [Date] argument: a copy of its time value. *)
Definition new_Date (value : t) : t := value.

Definition getDate (d : t) : option Z :=
  tv ← d; Some (DateFromTime (LocalTime tv)).
Definition getMonth (d : t) : option Z :=
  tv ← d; Some (MonthFromTime (LocalTime tv)).
Definition getFullYear (d : t) : option Z :=
  tv ← d; Some (YearFromTime (LocalTime tv)).

(** [Date.prototype.setDate(date)] *)
Definition setDate (d : t) (date : option Z) : t :=
  tv ← d;
  dt ← date;
  let lt := LocalTime tv in
  let newDate :=
    MakeDate (MakeDay (YearFromTime lt) (MonthFromTime lt) dt)
             (TimeWithinDay lt) in
  TimeClip (UTC newDate).

(** [Date.prototype.setMonth(month)] (no [date] argument) *)
Definition setMonth (d : t) (month : option Z) : t :=
  tv ← d;
  m ← month;
  let lt := LocalTime tv in
  let dt := DateFromTime lt in
  let newDate :=
    MakeDate (MakeDay (YearFromTime lt) m dt) (TimeWithinDay lt) in
  TimeClip (UTC newDate).

(** [Date.prototype.setFullYear(year)] (no [month], [date] arguments):
    a NaN time value is replaced by [+0] before the fields are read. *)
Definition setFullYear (d : t) (year : option Z) : t :=
  let lt := match d with Some tv => LocalTime tv | None => 0 end in
  y ← year;
  let newDate :=
    MakeDate (MakeDay y (MonthFromTime lt) (DateFromTime lt))
             (TimeWithinDay lt) in
  TimeClip (UTC newDate).
End LocalZone.

End Date.

(* ===================================================================== *)
(** ** JavaScript values and completions                                  *)
(* ===================================================================== *)

(** [x + n] on a number that may be NaN ([None]). *)
Definition js_add (x : option Z) (n : Z) : option Z := (λ v, v + n) <$> x.

(** Truthiness of a value that is a string, [null] or [undefined]. *)
Definition truthy (s : option string) : bool :=
  match s with
  | Some (String _ _) => true
  | _ => false
  end.

(** [v === "LITERAL"] for such a value. *)
Definition strict_eq (v : option string) (lit : string) : bool :=
  match v with
  | Some s => String.eqb s lit
  | None => false
  end.

(** Outcome of evaluating a JavaScript expression or an awaited promise. *)
Inductive completion (A : Type) : Type :=
| Normal (value : A)
| Throw (message : string).
Arguments Normal {A} value.
Arguments Throw {A} message.

(* ===================================================================== *)
(** ** Tables                                                             *)
(* ===================================================================== *)

Record User : Type := mkUser {
  user_id : string
}.

Record Account : Type := mkAccount {
  account_userId : string;
  balance : Z
}.

Record Transaction : Type := mkTransaction {
  type : string;
  amount : Z;
  description : string;
  date : Date.t;
  category : string;
  accountId : string;
  userId : string;
  isRecurring : bool;
  recurringInterval : option string;
  nextRecurringDate : option Date.t
}.

(** The [data] argument of [createTransaction] and [updateTransaction]. *)
Record TransactionData : Type := mkData {
  data_type : string;
  data_amount : Z;
  data_description : string;
  data_date : Date.t;
  data_category : string;
  data_accountId : string;
  data_isRecurring : bool;
  data_recurringInterval : option string
}.

(** [users] is indexed by [clerkUserId], the other two tables by [id]. *)
Record Db : Type := mkDb {
  users : gmap string User;
  accounts : gmap string Account;
  transactions : gmap string Transaction
}.

(** A row of [findMany] with [include: { account: true }]. *)
Record TransactionWithAccount : Type := mkWithAccount {
  row : Transaction;
  account : option Account
}.

(** The [where] argument of [getUserTransactions]: equality filters. *)
Record Query : Type := mkQuery {
  query_userId : option string;
  query_accountId : option string;
  query_type : option string;
  query_category : option string
}.

Definition emptyQuery : Query := mkQuery None None None None.

(* ===================================================================== *)
(** ** Collaborators and the world the actions run in                     *)
(* ===================================================================== *)

(** The decision of [aj.protect]. *)
Record Decision : Type := mkDecision {
  isDenied : bool;
  reason_isRateLimit : bool
}.

Record Env : Type := mkEnv {
  auth : completion (option string);        (* [(await auth()).userId] *)
  protect : string → completion Decision;   (* [aj.protect(req, {userId, ..})] *)
  uuid : string;                            (* the id the next insert gets *)
  LocalTZA : Z                              (* local time zone offset, ms *)
}.

Record World : Type := mkWorld {
  db : Db;
  revalidated : list string                 (* paths given to revalidatePath *)
}.

(** Computations that read and write the world and may throw. *)
Definition Js (A : Type) : Type := World → completion A * World.

Definition ret {A} (a : A) : Js A := λ w, (Normal a, w).

Definition bind {A B} (m : Js A) (k : A → Js B) : Js B :=
  λ w, match m w with
       | (Normal a, w') => k a w'
       | (Throw e, w') => (Throw e, w')
       end.

Definition throw {A} (message : string) : Js A := λ w, (Throw message, w).

(** [await p] for a promise of a collaborator. *)
Definition await {A} (p : completion A) : Js A := λ w, (p, w).

Notation "x <- m ;; k" := (bind m (λ x, k))
  (at level 100, m at next level, right associativity,
   format "'[v' x  <-  m  ;;  '/' k ']'").

(** [try { body } catch (error) { handler(error.message) }] *)
Definition try_catch {A} (body : Js A) (handler : string → Js A) : Js A :=
  λ w, match body w with
       | (Normal a, w') => (Normal a, w')
       | (Throw e, w') => handler e w'
       end.

(** [db.$transaction(async (tx) => body)]: the writes of [body] are kept
    when it returns and rolled back when it throws. *)
Definition db_transaction {A} (body : Js A) : Js A :=
  λ w, match body w with
       | (Normal a, w') => (Normal a, w')
       | (Throw e, w') => (Throw e, mkWorld (db w) (revalidated w'))
       end.

Definition revalidatePath (path : string) : Js unit :=
  λ w, (Normal tt, mkWorld (db w) (revalidated w ++ [path])).

(** *** Prisma client operations *)

Definition P2002 : string := "Unique constraint failed on the fields: (`id`)".
Definition P2025 : string :=
  "An operation failed because it depends on one or more records that were required but not found.".

(** [db.user.findUnique({ where: { clerkUserId } })] *)
Definition user_findUnique (clerkUserId : string) : Js (option User) :=
  λ w, (Normal (users (db w) !! clerkUserId), w).

(** [db.account.findUnique({ where: { id, userId } })] *)
Definition account_findUnique (id owner : string) : Js (option Account) :=
  λ w, (Normal (a ← accounts (db w) !! id;
                if String.eqb (account_userId a) owner then Some a else None),
        w).

(** [db.transaction.findUnique({ where: { id, userId } })] *)
Definition transaction_findUnique (id owner : string)
  : Js (option Transaction) :=
  λ w, (Normal (r ← transactions (db w) !! id;
                if String.eqb (userId r) owner then Some r else None),
        w).

(** [tx.transaction.create({ data })] *)
Definition transaction_create (id : string) (r : Transaction)
  : Js Transaction :=
  λ w, match transactions (db w) !! id with
       | Some _ => (Throw P2002, w)
       | None =>
           (Normal r,
            mkWorld (mkDb (users (db w)) (accounts (db w))
                          (<[id := r]> (transactions (db w))))
                    (revalidated w))
       end.

(** [tx.transaction.update({ where: { id, userId }, data })]; [change]
    overwrites the columns named in [data]. *)
Definition transaction_update (id owner : string)
    (change : Transaction → Transaction) : Js Transaction :=
  λ w, match transactions (db w) !! id with
       | Some r =>
           if String.eqb (userId r) owner then
             (Normal (change r),
              mkWorld (mkDb (users (db w)) (accounts (db w))
                            (<[id := change r]> (transactions (db w))))
                      (revalidated w))
           else (Throw P2025, w)
       | None => (Throw P2025, w)
       end.

(** [tx.account.update({ where: { id }, data: { balance: { increment } } })] *)
Definition account_update_increment (id : string) (increment : Z)
  : Js Account :=
  λ w, match accounts (db w) !! id with
       | Some a =>
           let a' := mkAccount (account_userId a) (balance a + increment) in
           (Normal a',
            mkWorld (mkDb (users (db w)) (<[id := a']> (accounts (db w)))
                          (transactions (db w)))
                    (revalidated w))
       | None => (Throw P2025, w)
       end.

(** [db.transaction.findMany({ where, include: { account: true },
    orderBy: { date: "desc" } })].  An Invalid Date sorts after every valid
    one. *)
Definition date_geb (a b : Date.t) : bool :=
  match a, b with
  | Some x, Some y => y <=? x
  | Some _, None => true
  | None, Some _ => false
  | None, None => true
  end.

Fixpoint insert_desc (x : TransactionWithAccount)
    (l : list TransactionWithAccount) : list TransactionWithAccount :=
  match l with
  | [] => [x]
  | y :: l' =>
      if date_geb (date (row x)) (date (row y)) then x :: l
      else y :: insert_desc x l'
  end.

Definition orderBy_date_desc (l : list TransactionWithAccount)
  : list TransactionWithAccount :=
  foldr insert_desc [] l.

Definition matches_opt (q : option string) (v : string) : bool :=
  match q with
  | Some s => String.eqb s v
  | None => true
  end.

(** [where: { userId: user.id, ...query }]: a [userId] key of [query]
    replaces the one written before the spread. *)
Definition where_matches (user_id : string) (query : Query)
    (r : Transaction) : bool :=
  String.eqb (userId r) (default user_id (query_userId query))
  && matches_opt (query_accountId query) (accountId r)
  && matches_opt (query_type query) (type r)
  && matches_opt (query_category query) (category r).

Definition transaction_findMany (user_id : string) (query : Query)
  : Js (list TransactionWithAccount) :=
  λ w,
    let rows :=
      filter (λ r, where_matches user_id query r = true)
             (snd <$> map_to_list (transactions (db w))) in
    let joined :=
      (λ r, mkWithAccount r (accounts (db w) !! accountId r)) <$> rows in
    (Normal (orderBy_date_desc joined), w).

(* ===================================================================== *)
(** ** The actions                                                        *)
(* ===================================================================== *)

(** What the three guarded actions resolve to:
    [{ success: true, data }] or [{ success: false, error }]. *)
Inductive ActionResult (A : Type) : Type :=
| Success (data : A)
| Failure (error : string).
Arguments Success {A} data.
Arguments Failure {A} error.

(** [amount.toNumber()].  The number is kept as the decimal it was read
    from; it is read as a binary64 value where the actions compute with it
    ([number_sub]). *)
Definition toNumber (x : Z) : Z := x.

(** Objects that carry an [amount] column. *)
Class HasAmount (A : Type) : Type := {
  with_amount : Z → A → A;
  get_amount : A → Z
}.

Global Instance Transaction_HasAmount : HasAmount Transaction := {
  with_amount x r :=
    mkTransaction (type r) x (description r) (date r) (category r)
      (accountId r) (userId r) (isRecurring r) (recurringInterval r)
      (nextRecurringDate r);
  get_amount := amount
}.

Global Instance WithAccount_HasAmount : HasAmount TransactionWithAccount := {
  with_amount x r := mkWithAccount (with_amount x (row r)) (account r);
  get_amount r := amount (row r)
}.

Definition serializeAmount {A} `{HasAmount A} (obj : A) : A :=
  with_amount (toNumber (get_amount obj)) obj.

(** [calculateNextRecurringDate(startDate, interval)] *)
Definition calculateNextRecurringDate (tza : Z) (startDate : Date.t)
    (interval : option string) : Date.t :=
  let date := Date.new_Date startDate in
  let date :=
    if strict_eq interval "DAILY"
    then Date.setDate tza date (js_add (Date.getDate tza date) 1)
    else date in
  let date :=
    if strict_eq interval "WEEKLY"
    then Date.setDate tza date (js_add (Date.getDate tza date) 7)
    else date in
  let date :=
    if strict_eq interval "MONTHLY"
    then Date.setMonth tza date (js_add (Date.getMonth tza date) 1)
    else date in
  let date :=
    if strict_eq interval "YEARLY"
    then Date.setFullYear tza date (js_add (Date.getFullYear tza date) 1)
    else date in
  date.

(** The value written to the [nextRecurringDate] column by both writers:
    [data.isRecurring && data.recurringInterval
       ? calculateNextRecurringDate(data.date, data.recurringInterval)
       : null]. *)
Definition nextRecurringDate_of (tza : Z) (data : TransactionData)
  : option Date.t :=
  if data_isRecurring data && truthy (data_recurringInterval data)
  then Some (calculateNextRecurringDate tza (data_date data)
               (data_recurringInterval data))
  else None.

(** [data.type === "EXPENSE" ? -data.amount : data.amount] (create). *)
Definition balanceChange (data : TransactionData) : Z :=
  if String.eqb (data_type data) "EXPENSE"
  then - data_amount data else data_amount data.

(** [original.type === "EXPENSE" ? -original.amount.toNumber()
                                  : original.amount.toNumber()] *)
Definition oldChange (original : Transaction) : Z :=
  if String.eqb (type original) "EXPENSE"
  then - toNumber (amount original) else toNumber (amount original).

(** [data.type === "EXPENSE" ? -data.amount : data.amount] (update). *)
Definition newChange (data : TransactionData) : Z :=
  if String.eqb (data_type data) "EXPENSE"
  then - data_amount data else data_amount data.

(** *** Subtraction of two numbers

    A JavaScript number is a binary64 value.  [round64 z] is the number a
    whole value [z] is read as: [z] itself when [|z| < 2^53], otherwise the
    nearest value with a 53-bit significand, a tie going to the even
    significand.  (Magnitudes from [2^1024] on are [Infinity] in JavaScript
    and have no counterpart here.) *)
Definition round64 (z : Z) : Z :=
  let a := Z.abs z in
  if a <? 2 ^ 53 then z
  else
    let k := Z.log2 a - 52 in
    let q := a / 2 ^ k in
    let r := a mod 2 ^ k in
    let half := 2 ^ (k - 1) in
    let q' := if (half <? r) || ((r =? half) && Z.odd q) then q + 1 else q in
    Z.sgn z * (q' * 2 ^ k).

(** The decimal form of a whole number [d >= 0] that is a binary64 value
    ([Number::toString]): the decimal with the fewest significant digits
    that reads back as [d]; of several such, the one nearest to [d]; of two
    equally near, the one with the even last digit.  The search runs over
    the multiples of [10^p] next to [d], from large [p] down to [p = 0]. *)
Fixpoint shortest (d : Z) (p : nat) : Z :=
  let u := 10 ^ Z.of_nat p in
  let lo := d / u * u in
  let hi := lo + u in
  let here :=
    match round64 lo =? d, round64 hi =? d with
    | true, true =>
        if d - lo <? hi - d then Some lo
        else if hi - d <? d - lo then Some hi
        else if Z.even (lo / u) then Some lo else Some hi
    | true, false => Some lo
    | false, true => Some hi
    | false, false => None
    end in
  match here, p with
  | Some c, _ => c
  | None, O => d
  | None, S p' => shortest d p'
  end.

Definition toDecimal (d : Z) : Z :=
  Z.sgn d * shortest (Z.abs d) (Z.to_nat (Z.log2 (Z.abs d))).

(** [x - y] on numbers, as the decimal the client sends: both operands are
    read as binary64 values, the difference is rounded to binary64, and the
    result is written in its decimal form. *)
Definition number_sub (x y : Z) : Z :=
  toDecimal (round64 (round64 x - round64 y)).

(** The same subtraction on the machine's binary64 values, for operands
    below [2^63]. *)
Definition float_sub (x y : Z) : spec_float :=
  Prim2SF (PrimFloat.sub (PrimFloat.of_uint63 (Uint63.of_Z x))
                         (PrimFloat.of_uint63 (Uint63.of_Z y))).

(** The value [(-1)^s * m * 2^e] of a finite binary64 value, when it is a
    whole number. *)
Definition float_value (f : spec_float) : option Z :=
  match f with
  | S754_zero _ => Some 0
  | S754_finite s m e =>
      let sign := if s then -1 else 1 in
      if 0 <=? e then Some (sign * (Z.pos m * 2 ^ e))
      else if Z.pos m mod 2 ^ (- e) =? 0
           then Some (sign * (Z.pos m / 2 ^ (- e)))
           else None
  | _ => None
  end.

(** [const netChange = newChange - oldChange;] *)
Definition netChange (original : Transaction) (data : TransactionData) : Z :=
  number_sub (newChange data) (oldChange original).

(** Amounts whose sums and differences stay below [2^53]. *)
Definition safeAmount (x : Z) : Prop := Z.abs x < 2 ^ 52.

(** [{ ...data, userId: user.id, nextRecurringDate: .. }] *)
Definition created_row (tza : Z) (data : TransactionData) (user : User)
  : Transaction :=
  mkTransaction (data_type data) (data_amount data) (data_description data)
    (data_date data) (data_category data) (data_accountId data)
    (user_id user) (data_isRecurring data) (data_recurringInterval data)
    (nextRecurringDate_of tza data).

(** [{ ...data, nextRecurringDate: .. }] written over a stored row.  A key
    that is absent from [data] (undefined) leaves its column as it is
    stored: with no [recurringInterval] in [data] the row keeps its
    interval.  [nextRecurringDate] is always given, as a date or as
    [null]. *)
Definition updated_row (tza : Z) (data : TransactionData) (r : Transaction)
  : Transaction :=
  mkTransaction (data_type data) (data_amount data) (data_description data)
    (data_date data) (data_category data) (data_accountId data)
    (userId r) (data_isRecurring data)
    (match data_recurringInterval data with
     | Some interval => Some interval
     | None => recurringInterval r
     end)
    (nextRecurringDate_of tza data).

Definition createTransaction (env : Env) (data : TransactionData)
  : Js (ActionResult Transaction) :=
  try_catch
    (userId <- await (auth env) ;;
     match userId with
     | None | Some EmptyString => throw "Unauthorized"
     | Some userId =>
       decision <- await (protect env userId) ;;
       if isDenied decision then
         if reason_isRateLimit decision
         then throw "Too many requests. Please try again later."
         else throw "Request blocked"
       else
       user <- user_findUnique userId ;;
       match user with
       | None => throw "User not found"
       | Some user =>
         account <- account_findUnique (data_accountId data) (user_id user) ;;
         match account with
         | None => throw "Account not found"
         | Some _ =>
           let balanceChange := balanceChange data in
           transaction <-
             db_transaction
               (created <- transaction_create (uuid env)
                             (created_row (LocalTZA env) data user) ;;
                _ <- account_update_increment (data_accountId data)
                       balanceChange ;;
                ret created) ;;
           _ <- revalidatePath "/dashboard" ;;
           _ <- revalidatePath ("/account/" +:+ accountId transaction) ;;
           ret (Success (serializeAmount transaction))
         end
       end
     end)
    (λ error, ret (Failure error)).

Definition getTransaction (env : Env) (id : string) : Js Transaction :=
  userId <- await (auth env) ;;
  match userId with
  | None | Some EmptyString => throw "Unauthorized"
  | Some userId =>
    user <- user_findUnique userId ;;
    match user with
    | None => throw "User not found"
    | Some user =>
      transaction <- transaction_findUnique id (user_id user) ;;
      match transaction with
      | None => throw "Transaction not found"
      | Some transaction => ret (serializeAmount transaction)
      end
    end
  end.

Definition updateTransaction (env : Env) (id : string)
    (data : TransactionData) : Js (ActionResult Transaction) :=
  try_catch
    (userId <- await (auth env) ;;
     match userId with
     | None | Some EmptyString => throw "Unauthorized"
     | Some userId =>
       user <- user_findUnique userId ;;
       match user with
       | None => throw "User not found"
       | Some user =>
         original <- transaction_findUnique id (user_id user) ;;
         match original with
         | None => throw "Transaction not found"
         | Some original =>
           let netChange := netChange original data in
           updated <-
             db_transaction
               (txUpdated <- transaction_update id (user_id user)
                               (updated_row (LocalTZA env) data) ;;
                _ <- account_update_increment (data_accountId data)
                       netChange ;;
                ret txUpdated) ;;
           _ <- revalidatePath "/dashboard" ;;
           _ <- revalidatePath ("/account/" +:+ data_accountId data) ;;
           ret (Success (serializeAmount updated))
         end
       end
     end)
    (λ error, ret (Failure error)).

Definition getUserTransactions (env : Env) (query : Query)
  : Js (ActionResult (list TransactionWithAccount)) :=
  try_catch
    (userId <- await (auth env) ;;
     match userId with
     | None | Some EmptyString => throw "Unauthorized"
     | Some userId =>
       user <- user_findUnique userId ;;
       match user with
       | None => throw "User not found"
       | Some user =>
         transactions <- transaction_findMany (user_id user) query ;;
         ret (Success (serializeAmount <$> transactions))
       end
     end)
    (λ error, ret (Failure error)).

(* ===================================================================== *)
(** ** Specification-side definitions                                     *)
(* ===================================================================== *)

(** The specification's contract, word for word:
    [signedAmount(type, amount) = +amount if type=INCOME else -amount].
    [seed.js] sums the same expression on numbers,
    [type === "INCOME" ? amount : -amount] ([signedNumber]). *)
Definition signedAmount (type : string) (amount : Z) : Z :=
  if String.eqb type "INCOME" then amount else - amount.

Definition validType (type : string) : Prop :=
  type = "INCOME" ∨ type = "EXPENSE".

(** The balance stored for an account, if the account exists. *)
Definition balanceOf (w : World) (id : string) : option Z :=
  balance <$> accounts (db w) !! id.

(** What a stored row adds to the balance of account [id]: its signed
    amount, as the update path reads it back ([oldChange]), when the row
    belongs to that account. *)
Definition contribution (id : string) (r : Transaction) : Z :=
  if String.eqb (accountId r) id then oldChange r else 0.

Definition add_row (id : string) (_ : string) (r : Transaction) (total : Z)
  : Z :=
  contribution id r + total.

(** Sum of the signed amounts of the rows stored for account [id]. *)
Definition storedSum (d : Db) (id : string) : Z :=
  map_fold (add_row id) 0 (transactions d).

(** Every account's balance is the sum of its rows' signed amounts. *)
Definition balanced (d : Db) : Prop :=
  map_Forall (λ id a, balance a = storedSum d id) (accounts d).

(** Recurrence fields of a row, as the specification relates them: flag set
    iff an interval is present iff a next date is present, and a present
    next date is [advance(date, interval)].  An interval is present when it
    is a non-empty value, the test the actions themselves apply. *)
Definition recurrenceConsistent (tza : Z) (r : Transaction) : bool :=
  eqb (isRecurring r) (truthy (recurringInterval r))
  && eqb (truthy (recurringInterval r))
         (bool_decide (is_Some (nextRecurringDate r)))
  && match nextRecurringDate r with
     | Some d =>
         bool_decide
           (d = calculateNextRecurringDate tza (date r) (recurringInterval r))
     | None => true
     end.

(** The account row after [balance: { increment }]. *)
Definition incremented (a : Account) (increment : Z) : Account :=
  mkAccount (account_userId a) (balance a + increment).

(** [where: { id, userId }] selects nothing: no row under [id], or a row
    of another user. *)
Definition notOwned (w : World) (id owner : string) : Prop :=
  ∀ r, transactions (db w) !! id = Some r → userId r ≠ owner.

(** A time value is a date when [TimeClip] keeps it. *)
Definition validTime (tv : Z) : Prop := - Date.maxTime <= tv <= Date.maxTime.

(* ===================================================================== *)
(** ** A small household, used for the worked examples                    *)
(* ===================================================================== *)

Module Household.

Definition jan15 : Date.t := Some 1705276800000.   (* 2024-01-15T00:00Z *)
Definition jan31 : Date.t := Some 1706659200000.   (* 2024-01-31T00:00Z *)
Definition feb01 : Date.t := Some 1706745600000.   (* 2024-02-01T00:00Z *)
Definition feb07 : Date.t := Some 1707264000000.   (* 2024-02-07T00:00Z *)

Definition salary : Transaction :=
  mkTransaction "INCOME" 100 "salary" jan15 "salary" "acc_A" "alice"
    false None None.
Definition gift : Transaction :=
  mkTransaction "INCOME" 500 "gift" jan15 "gifts" "acc_C" "bob"
    false None None.

(** Alice owns the accounts [acc_A] and [acc_B], Bob owns [acc_C]; every
    balance is the sum of the rows of its account. *)
Definition home : World :=
  mkWorld
    (mkDb
       (<["clerk_alice" := mkUser "alice"]>
          (<["clerk_bob" := mkUser "bob"]> ∅))
       (<["acc_A" := mkAccount "alice" 100]>
          (<["acc_B" := mkAccount "alice" 0]>
             (<["acc_C" := mkAccount "bob" 500]> ∅)))
       (<["tx_0" := salary]> (<["tx_9" := gift]> ∅)))
    [].

(** Alice is signed in, the request is allowed, the next row gets id
    [tx_1], the server runs in UTC. *)
Definition alice : Env :=
  mkEnv (Normal (Some "clerk_alice"))
        (λ _, Normal (mkDecision false false)) "tx_1" 0.

Definition anonymous : Env :=
  mkEnv (Normal None) (λ _, Normal (mkDecision false false)) "tx_1" 0.

Definition groceries : TransactionData :=
  mkData "EXPENSE" 30 "groceries" jan15 "food" "acc_A" false None.

(** [tx_0] edited from INCOME 100 to EXPENSE 30, same account. *)
Definition refund : TransactionData :=
  mkData "EXPENSE" 30 "refund" jan15 "salary" "acc_A" false None.

(** [tx_0] unchanged except for its account: [acc_A] to [acc_B]. *)
Definition moved : TransactionData :=
  mkData "INCOME" 100 "salary" jan15 "salary" "acc_B" false None.

(** [tx_0] edited to INCOME 350 and pointed at Bob's account. *)
Definition toBob : TransactionData :=
  mkData "INCOME" 350 "salary" jan15 "salary" "acc_C" false None.

(** [tx_0] pointed at an account that does not exist. *)
Definition toNowhere : TransactionData :=
  mkData "INCOME" 100 "salary" jan15 "salary" "acc_Z" false None.

(** Recurrence flag set, no interval supplied. *)
Definition flagOnly : TransactionData :=
  mkData "EXPENSE" 12 "streaming" jan15 "fun" "acc_A" true None.

(** Interval supplied, recurrence flag not set. *)
Definition intervalOnly : TransactionData :=
  mkData "EXPENSE" 12 "streaming" jan15 "fun" "acc_A" false
    (Some "MONTHLY").

Definition monthly : TransactionData :=
  mkData "EXPENSE" 12 "streaming" jan15 "fun" "acc_A" true
    (Some "MONTHLY").

(** The subscription switched off: the flag cleared, no interval chosen. *)
Definition stopped : TransactionData :=
  mkData "EXPENSE" 12 "streaming" jan15 "fun" "acc_A" false None.

(** An income of 1 on [acc_B], and the same row edited to an amount of
    [10^16]. *)
Definition penny : TransactionData :=
  mkData "INCOME" 1 "found" jan15 "other" "acc_B" false None.

Definition fortune : TransactionData :=
  mkData "INCOME" 10000000000000000 "found" jan15 "other" "acc_B" false None.

End Household.

(* ===================================================================== *)
(** ** The calendar, for stating what MONTHLY and YEARLY do                *)
(* ===================================================================== *)

(** 1 in a leap year, 0 otherwise (the [InLeapYear] of a year). *)
Definition leapOf (y : Z) : Z := if Date.DaysInYear y =? 366 then 1 else 0.

(** Length of month [m] (0 = January) of year [y]. *)
Definition DaysInMonth (y m : Z) : Z :=
  match m with
  | 1 => 28 + leapOf y
  | 3 | 5 | 8 | 10 => 30
  | _ => 31
  end.

(** The month after month [m] of year [y], as (year, month). *)
Definition nextMonth (y m : Z) : Z * Z :=
  if m =? 11 then (y + 1, 0) else (y, m + 1).

(** The year, month and day of the month a [Date] shows in local time. *)
Definition localFields (tza : Z) (d : Date.t) : option (Z * Z * Z) :=
  y ← Date.getFullYear tza d;
  m ← Date.getMonth tza d;
  dt ← Date.getDate tza d;
  Some (y, m, dt).

(* ===================================================================== *)
(** ** The page [AddTransactionPage]                                      *)
(* ===================================================================== *)

(** [searchParams]: only the [edit] key is read. *)
Record SearchParams : Type := mkSearchParams {
  edit : option string
}.

(** The props handed to [AddTransactionForm].  [getUserAccounts] and
    [defaultCategories] live in other modules; their results are carried
    as they come. *)
Record FormProps (Accounts Categories : Type) : Type := mkFormProps {
  props_accounts : Accounts;
  props_categories : Categories;
  props_editMode : bool;
  props_initialData : option Transaction
}.
Arguments mkFormProps {Accounts Categories} _ _ _ _.
Arguments props_accounts {Accounts Categories} _.
Arguments props_categories {Accounts Categories} _.
Arguments props_editMode {Accounts Categories} _.
Arguments props_initialData {Accounts Categories} _.

Definition AddTransactionPage {Accounts Categories : Type} (env : Env)
    (getUserAccounts : Js Accounts) (defaultCategories : Categories)
    (searchParams : option SearchParams)
  : Js (FormProps Accounts Categories) :=
  accounts <- getUserAccounts ;;
  let editId := searchParams ≫= edit in
  initialData <-
    match editId with
    | Some (String c id) =>
        transaction <- getTransaction env (String c id) ;;
        ret (Some transaction)
    | _ => ret None
    end ;;
  ret (mkFormProps accounts defaultCategories (truthy editId) initialData).

(* ===================================================================== *)
(** ** The seeding loop of [seed.js]                                      *)
(* ===================================================================== *)

(** A row pushed by the loop.  Its amount is a JavaScript number, a
    binary64 value. *)
Record SeedRow : Type := mkSeedRow {
  seed_type : string;
  seed_amount : float;
  seed_description : string;
  seed_date : Date.t;
  seed_status : string;
  seed_userId : string;
  seed_accountId : string;
  seed_createdAt : Date.t;
  seed_updatedAt : Date.t
}.

(** What one pass of the loop reads from its surroundings: the clock
    ([new Date()]), the outcome of [Math.random() < 0.4], and the number
    [Math.random() * 500]. *)
Record Draw : Type := mkDraw {
  draw_now : Date.t;
  draw_below : bool;
  draw_amount : float
}.

(** [subDays(date, amount)] of date-fns, which is [addDays(date, -amount)]:
    a copy of [date], left alone when the amount is 0, else moved by
    [setDate(getDate() + amount)]. *)
Definition addDays (tza : Z) (date : Date.t) (amount : Z) : Date.t :=
  let _date := Date.new_Date date in
  if amount =? 0 then _date
  else Date.setDate tza _date (js_add (Date.getDate tza _date) amount).

Definition subDays (tza : Z) (date : Date.t) (amount : Z) : Date.t :=
  addDays tza date (- amount).

Definition ACCOUNT_ID : string := "account-id".
Definition USER_ID : string := "user-id".

(** The body of [for (let i = 90; i >= 0; i--)], on the pair
    [(transactions, totalBalance)].  [totalBalance += ..] is an addition of
    numbers: the sum is rounded to binary64 in every pass. *)
Definition seed_step (tza : Z) (draws : Z → Draw)
    (state : list SeedRow * float) (i : Z) : list SeedRow * float :=
  let date := subDays tza (draw_now (draws i)) i in
  let type := if draw_below (draws i) then "INCOME" else "EXPENSE" in
  let amount := draw_amount (draws i) in
  (state.1 ++ [mkSeedRow type amount "Seed transaction" date "COMPLETED"
                 USER_ID ACCOUNT_ID date date],
   (state.2 + (if String.eqb type "INCOME" then amount else - amount))%float).

(** The object pushed in the pass with index [i]. *)
Definition seed_row (tza : Z) (draws : Z → Draw) (i : Z) : SeedRow :=
  let date := subDays tza (draw_now (draws i)) i in
  mkSeedRow (if draw_below (draws i) then "INCOME" else "EXPENSE")
    (draw_amount (draws i)) "Seed transaction" date "COMPLETED"
    USER_ID ACCOUNT_ID date date.

(** The values [i] takes: 90, 89, ..., 0. *)
Definition seed_indices : list Z := (λ k, 90 - Z.of_nat k) <$> seq 0 91.

(** [transactions] and [totalBalance] when the loop is left. *)
Definition seed_loop (tza : Z) (draws : Z → Draw) : list SeedRow * float :=
  foldl (seed_step tza draws) ([], 0%float) seed_indices.

(** The signed amount of a row as a number, read as the script reads it
    ([+amount] for INCOME, [-amount] otherwise) and as the update action
    reads a stored row ([-amount] for EXPENSE, [+amount] otherwise). *)
Definition signedNumber (type : string) (amount : float) : float :=
  if String.eqb type "INCOME" then amount else (- amount)%float.

Definition signedNumber_update (type : string) (amount : float) : float :=
  if String.eqb type "EXPENSE" then (- amount)%float else amount.

(** The rows' signed amounts added up from 0 in the order of the array,
    each sum rounded to binary64; and the same amounts added up from the
    last row backwards. *)
Definition sum_in_order (rows : list SeedRow) : float :=
  foldl (λ total r,
           (total + signedNumber (seed_type r) (seed_amount r))%float)
        0%float rows.

Definition sum_backwards (rows : list SeedRow) : float :=
  foldr (λ r total,
           (signedNumber (seed_type r) (seed_amount r) + total)%float)
        0%float rows.

(* ===================================================================== *)
(** ** The text clean-up of [scanReceipt]                                 *)
(* ===================================================================== *)

(** A JavaScript string is its sequence of UTF-16 code units. *)
Abbreviation Text := (list N).

(** Three backticks; the word [json]. *)
Definition is_fence (c1 c2 c3 : N) : bool :=
  ((c1 =? 96) && (c2 =? 96) && (c3 =? 96))%N.

Definition is_json (c1 c2 c3 c4 : N) : bool :=
  ((c1 =? 106) && (c2 =? 115) && (c3 =? 111) && (c4 =? 110))%N.

(** [text.replace(/```(?:json)?/g, "")]: scanning from the left, three
    backticks and, when it follows at once, the word [json] are dropped and
    the scan goes on behind them; every other code unit is kept. *)
Fixpoint strip_fences (text : Text) : Text :=
  match text with
  | c1 :: rest =>
      match rest with
      | c2 :: c3 :: rest3 =>
          if is_fence c1 c2 c3 then
            match rest3 with
            | c4 :: c5 :: c6 :: c7 :: rest7 =>
                if is_json c4 c5 c6 c7 then strip_fences rest7
                else strip_fences rest3
            | _ => strip_fences rest3
            end
          else c1 :: strip_fences rest
      | _ => c1 :: strip_fences rest
      end
  | [] => []
  end.

(** WhiteSpace and LineTerminator of ECMA-262. *)
Definition isWhiteSpace (c : N) : bool :=
  ((c =? 9) || (c =? 10) || (c =? 11) || (c =? 12) || (c =? 13)
   || (c =? 32) || (c =? 160) || (c =? 5760)
   || ((8192 <=? c) && (c <=? 8202))
   || (c =? 8232) || (c =? 8233) || (c =? 8239) || (c =? 8287)
   || (c =? 12288) || (c =? 65279))%N.

Fixpoint trimStart (text : Text) : Text :=
  match text with
  | c :: rest => if isWhiteSpace c then trimStart rest else text
  | [] => []
  end.

Definition trimEnd (text : Text) : Text :=
  reverse (trimStart (reverse text)).

(** [String.prototype.trim] *)
Definition trim (text : Text) : Text := trimEnd (trimStart text).

(** [result.response.text().replace(/```(?:json)?/g, "").trim()] *)
Definition clean_text (text : Text) : Text := trim (strip_fences text).

(** The code units of an ASCII literal, for writing examples. *)
Fixpoint units (s : string) : Text :=
  match s with
  | EmptyString => []
  | String c s' => Ascii.N_of_ascii c :: units s'
  end.

Definition fence : Text := [96; 96; 96]%N.

(** Three backticks in a row somewhere in the text. *)
Definition has_fence (text : Text) : Prop := ∃ a b, text = a ++ fence ++ b.

(** The text begins with two backticks. *)
Definition starts2 (text : Text) : Prop := ∃ b, text = (96 :: 96 :: b)%N.

(** An end of the text (its first or last code unit, if any) that is not
    white space. *)
Definition solid (c : option N) : Prop :=
  ∀ x, c = Some x → isWhiteSpace x = false.

(** A listing in [orderBy: { date: "desc" }] order. *)
Definition date_desc (a b : TransactionWithAccount) : Prop :=
  date_geb (date (row a)) (date (row b)) = true.

(** One call that may write: any create, or an update that leaves the
    transaction in the account it is stored under and whose old and new
    amounts are below [2^52]. *)
Inductive step : World → World → Prop :=
| step_create env data w r w' :
    createTransaction env data w = (r, w') → step w w'
| step_update env id data w r w' :
    (∀ original, transactions (db w) !! id = Some original →
                 accountId original = data_accountId data
                 ∧ safeAmount (amount original)) →
    safeAmount (data_amount data) →
    updateTransaction env id data w = (r, w') → step w w'.

(** A later purchase in the household, and the world after it. *)
Definition busPass : TransactionData :=
  mkData "EXPENSE" 20 "bus pass" Household.feb01 "travel" "acc_A" false None.

Definition afterBusPass : World :=
  snd (createTransaction Household.alice busPass Household.home).

(* ===================================================================== *)
(** ** Facts about dates                                                  *)
(* ===================================================================== *)

Module DateFacts.
Import Date.

Lemma MonthFromTime_range tv : 0 <= MonthFromTime tv <= 11.
Proof.
  unfold MonthFromTime.
  repeat match goal with
         | |- context [if ?c then _ else _] => destruct c
         end; lia.
Qed.

Lemma InLeapYear_range tv : 0 <= InLeapYear tv <= 1.
Proof. unfold InLeapYear. destruct (_ =? _); lia. Qed.

(** Rebuilding the day from the fields read off a time value, with the
    day of the month shifted by [n], lands [n] days later. *)
Lemma MakeDay_shift tv n :
  MakeDay (YearFromTime tv) (MonthFromTime tv) (DateFromTime tv + n)
  = Day tv + n.
Proof.
  pose proof (MonthFromTime_range tv) as Hm.
  unfold MakeDay, DateFromTime, DayWithinYear.
  rewrite (Z.div_small (MonthFromTime tv) 12) by lia.
  rewrite (Z.mod_small (MonthFromTime tv) 12) by lia.
  rewrite Z.add_0_r.
  fold (InLeapYear tv). lia.
Qed.

Lemma MakeDate_Day tv n :
  MakeDate (Day tv + n) (TimeWithinDay tv) = tv + n * msPerDay.
Proof.
  unfold MakeDate, Day, TimeWithinDay.
  pose proof (Z.div_mod tv msPerDay). unfold msPerDay in *. lia.
Qed.

(** [date.setDate(date.getDate() + n)] on a valid date. *)
Lemma setDate_getDate_add tza tv n :
  setDate tza (Some tv) (js_add (getDate tza (Some tv)) n)
  = TimeClip (tv + n * msPerDay).
Proof.
  unfold setDate, getDate, js_add; simpl.
  rewrite MakeDay_shift, MakeDate_Day.
  unfold UTC, LocalTime. f_equal. lia.
Qed.

Lemma TimeClip_in_range tv :
  - maxTime <= tv <= maxTime → TimeClip tv = Some tv.
Proof.
  intros H. unfold TimeClip.
  destruct (Z.ltb_spec maxTime (Z.abs tv)); [lia | reflexivity].
Qed.

(** The day a year starts on stays within a day and a half of the mean
    year length of 365.2425 days. *)
Lemma DayFromYear_bounds y :
  146097 * (y - 1970) - 600 < 400 * DayFromYear y
  < 146097 * (y - 1970) + 600.
Proof.
  unfold DayFromYear.
  pose proof (Z.div_mod (y - 1969) 4 ltac:(lia)).
  pose proof (Z.mod_pos_bound (y - 1969) 4 ltac:(lia)).
  pose proof (Z.div_mod (y - 1901) 100 ltac:(lia)).
  pose proof (Z.mod_pos_bound (y - 1901) 100 ltac:(lia)).
  pose proof (Z.div_mod (y - 1601) 400 ltac:(lia)).
  pose proof (Z.mod_pos_bound (y - 1601) 400 ltac:(lia)).
  lia.
Qed.

Lemma YearFromTime_days tv :
  DayFromYear (YearFromTime tv) <= Day tv
  < DayFromYear (YearFromTime tv + 1).
Proof.
  unfold YearFromTime. generalize (Day tv) as d. intros d.
  set (y := 1970 + 400 * d / 146097).
  assert (Hy : 146097 * (y - 1970) <= 400 * d
               < 146097 * (y - 1970) + 146097).
  { subst y. pose proof (Z.div_mod (400 * d) 146097 ltac:(lia)).
    pose proof (Z.mod_pos_bound (400 * d) 146097 ltac:(lia)). lia. }
  clearbody y.
  destruct (Z.ltb_spec d (DayFromYear y)) as [H1 | H1].
  - replace (y - 1 + 1) with y by lia.
    pose proof (DayFromYear_bounds (y - 1)). lia.
  - destruct (Z.leb_spec (DayFromYear (y + 1)) d) as [H2 | H2].
    + replace (y + 1 + 1) with (y + 2) by lia.
      pose proof (DayFromYear_bounds (y + 2)). lia.
    + lia.
Qed.

(** [YearFromTime] meets its definition in ECMA-262: the year found is
    the largest one that starts at or before the time value. *)
Lemma YearFromTime_spec tv :
  TimeFromYear (YearFromTime tv) <= tv < TimeFromYear (YearFromTime tv + 1).
Proof.
  assert (Hd : Day tv * msPerDay <= tv < (Day tv + 1) * msPerDay).
  { unfold Day. pose proof (Z.div_mod tv msPerDay).
    pose proof (Z.mod_pos_bound tv msPerDay). unfold msPerDay in *. lia. }
  pose proof (YearFromTime_days tv) as Hy.
  unfold TimeFromYear. unfold msPerDay in *. lia.
Qed.

End DateFacts.

(* ===================================================================== *)
(** ** Facts about numbers                                                *)
(* ===================================================================== *)

Lemma round64_small z : Z.abs z < 2 ^ 53 → round64 z = z.
Proof.
  intros H. unfold round64.
  destruct (Z.ltb_spec (Z.abs z) (2 ^ 53)); [reflexivity | lia].
Qed.

Lemma round64_large a : 2 ^ 53 <= a → 2 ^ 53 <= round64 a.
Proof.
  intros H. unfold round64.
  destruct (Z.ltb_spec (Z.abs a) (2 ^ 53)); [lia|].
  rewrite (Z.abs_eq a) by lia. rewrite (Z.sgn_pos a) by lia.
  set (k := Z.log2 a - 52).
  assert (Hlog : 53 <= Z.log2 a).
  { apply Z.log2_le_pow2; lia. }
  assert (Hk : 1 <= k) by (unfold k; lia).
  assert (Hpow : 2 ^ Z.log2 a <= a) by (apply Z.log2_spec; lia).
  assert (Hsplit : 2 ^ Z.log2 a = 2 ^ 52 * 2 ^ k).
  { rewrite <- Z.pow_add_r by lia. f_equal. unfold k. lia. }
  assert (Hkpos : 0 < 2 ^ k) by (apply Z.pow_pos_nonneg; lia).
  assert (Hq : 2 ^ 52 <= a / 2 ^ k).
  { apply Z.div_le_lower_bound; lia. }
  assert (H2k : 2 <= 2 ^ k).
  { change 2 with (2 ^ 1) at 1. apply Z.pow_le_mono_r; lia. }
  cbv zeta. fold k. set (q := a / 2 ^ k) in *.
  change (2 ^ 53) with (2 ^ 52 * 2).
  destruct (orb _ _); nia.
Qed.

Lemma shortest_candidates d u :
  0 <= d < 2 ^ 53 → 0 < u →
  (round64 (d / u * u + u) =? d) = false
  ∧ (round64 (d / u * u) =? d) = (d / u * u =? d).
Proof.
  intros Hd Hu. set (lo := d / u * u).
  assert (Hlo : 0 <= lo <= d ∧ d < lo + u).
  { unfold lo. pose proof (Z.div_mod d u ltac:(lia)).
    pose proof (Z.mod_pos_bound d u Hu).
    assert (0 <= d / u) by (apply Z.div_pos; lia). nia. }
  split.
  - apply Z.eqb_neq. intros E.
    destruct (Z.lt_ge_cases (lo + u) (2 ^ 53)) as [Hlt | Hge].
    + rewrite round64_small in E by lia. lia.
    + apply round64_large in Hge. lia.
  - by rewrite (round64_small lo) by lia.
Qed.

Lemma shortest_small d p : 0 <= d < 2 ^ 53 → shortest d p = d.
Proof.
  intros Hd.
  assert (Hu : ∀ n : nat, 0 < 10 ^ Z.of_nat n)
    by (intros n; apply Z.pow_pos_nonneg; lia).
  induction p as [|p IH]; cbn [shortest].
  - destruct (shortest_candidates d _ Hd (Hu O)) as [-> ->].
    destruct (_ =? d) eqn:E; [by apply Z.eqb_eq in E | done].
  - destruct (shortest_candidates d _ Hd (Hu (S p))) as [-> ->].
    destruct (_ =? d) eqn:E; [by apply Z.eqb_eq in E | done].
Qed.

Lemma toDecimal_small d : Z.abs d < 2 ^ 53 → toDecimal d = d.
Proof.
  intros H. unfold toDecimal. rewrite shortest_small by lia. lia.
Qed.

Lemma number_sub_safe x y :
  safeAmount x → safeAmount y → number_sub x y = x - y.
Proof.
  unfold safeAmount, number_sub.
  change (2 ^ 52) with 4503599627370496.
  intros Hx Hy.
  assert (Z.abs (x - y) < 2 ^ 53).
  { change (2 ^ 53) with 9007199254740992. lia. }
  rewrite (round64_small x), (round64_small y)
    by (change (2 ^ 53) with 9007199254740992; lia).
  rewrite round64_small by done. by apply toDecimal_small.
Qed.

Lemma number_sub_diag x : number_sub x x = 0.
Proof. unfold number_sub. by rewrite Z.sub_diag. Qed.

Lemma round64_opp z : round64 (- z) = - round64 z.
Proof.
  unfold round64. rewrite Z.abs_opp, Z.sgn_opp.
  destruct (_ <? _); lia.
Qed.


Lemma safeAmount_opp a : safeAmount a → safeAmount (- a).
Proof. unfold safeAmount. lia. Qed.

(** The model agrees with the machine's binary64 subtraction, here where
    the difference [10^16 - 1] falls between two binary64 values and where
    [2^60 - 100] does. *)
Example number_sub_rounds :
  number_sub (10 ^ 16) 1 = 10 ^ 16
  ∧ float_value (float_sub (10 ^ 16) 1) = Some (number_sub (10 ^ 16) 1)
  ∧ float_value (float_sub (2 ^ 60) 100) = Some (round64 (2 ^ 60 - 100))
  ∧ float_value (float_sub 350 100) = Some (number_sub 350 100).
Proof. by vm_compute. Qed.

(** The decimal form keeps no more digits than are needed to read the
    number back: [2^60 = 1152921504606846976] is written with sixteen
    digits. *)
Example toDecimal_shortest :
  round64 (2 ^ 60) = 2 ^ 60
  ∧ toDecimal (2 ^ 60) = 1152921504606847000
  ∧ round64 1152921504606847000 = 2 ^ 60.
Proof. by vm_compute. Qed.

(** On fractions the subtraction rounds already at small values:
    [0.3 - 0.1] is not [0.2]. *)
Example fraction_sub_rounds :
  PrimFloat.eqb (0x1.3333333333333p-2 - 0x1.999999999999ap-4)%float
                0x1.999999999999ap-3%float = false
  ∧ PrimFloat.eqb (0x1.3333333333333p-2 - 0x1.999999999999ap-4)%float
                  0x1.9999999999999p-3%float = true.
Proof. by vm_compute. Qed.

(* ===================================================================== *)
(** ** How the two writers end                                            *)
(* ===================================================================== *)

Lemma eta_World w : mkWorld (db w) (revalidated w) = w.
Proof. by destruct w. Qed.

Ltac string_eqb :=
  repeat match goal with
         | H : String.eqb _ _ = true |- _ => apply String.eqb_eq in H
         | H : String.eqb _ _ = false |- _ => apply String.eqb_neq in H
         end.

(** [createTransaction] either resolves to a failure and leaves the world
    as it was, or went through every check and committed both writes. *)
Lemma createTransaction_cases env data w :
  (∃ msg, createTransaction env data w = (Normal (Failure msg), w))
  ∨ (∃ uid user a,
       auth env = Normal (Some uid) ∧ uid ≠ EmptyString ∧
       (∃ dec, protect env uid = Normal dec ∧ isDenied dec = false) ∧
       users (db w) !! uid = Some user ∧
       accounts (db w) !! data_accountId data = Some a ∧
       account_userId a = user_id user ∧
       transactions (db w) !! uuid env = None ∧
       createTransaction env data w =
         (Normal (Success (created_row (LocalTZA env) data user)),
          mkWorld
            (mkDb (users (db w))
               (<[data_accountId data := incremented a (balanceChange data)]>
                  (accounts (db w)))
               (<[uuid env := created_row (LocalTZA env) data user]>
                  (transactions (db w))))
            (revalidated w
               ++ ["/dashboard"; "/account/" +:+ data_accountId data]))).
Proof.
  unfold createTransaction, try_catch, bind, await, throw, ret.
  destruct (auth env) as [[[|c uid]|]|e]; simpl;
    try (left; eexists; reflexivity).
  destruct (protect env (String c uid)) as [dec|e] eqn:Hp; simpl;
    [|left; eexists; reflexivity].
  destruct (isDenied dec) eqn:Hden.
  { destruct (reason_isRateLimit dec); left; eexists; reflexivity. }
  unfold user_findUnique; simpl.
  destruct (users (db w) !! String c uid) as [user|] eqn:Hu;
    [|left; eexists; reflexivity].
  unfold account_findUnique; simpl.
  destruct (accounts (db w) !! data_accountId data) as [a|] eqn:Ha; simpl;
    [|left; eexists; reflexivity].
  destruct (String.eqb (account_userId a) (user_id user)) eqn:Hown;
    [|left; eexists; reflexivity].
  unfold db_transaction, bind, transaction_create, account_update_increment,
    revalidatePath, ret; simpl.
  destruct (transactions (db w) !! uuid env) eqn:Hid; simpl.
  { left. eexists. by rewrite eta_World. }
  rewrite Ha; simpl.
  right. exists (String c uid), user, a. string_eqb.
  repeat split; eauto.
  by rewrite <- app_assoc.
Qed.

(** The same for [updateTransaction]; the account that is incremented is
    the one named by [data.accountId], looked up by [id] alone. *)
Lemma updateTransaction_cases env id data w :
  (∃ msg, updateTransaction env id data w = (Normal (Failure msg), w))
  ∨ (∃ uid user original a,
       auth env = Normal (Some uid) ∧ uid ≠ EmptyString ∧
       users (db w) !! uid = Some user ∧
       transactions (db w) !! id = Some original ∧
       userId original = user_id user ∧
       accounts (db w) !! data_accountId data = Some a ∧
       updateTransaction env id data w =
         (Normal (Success (updated_row (LocalTZA env) data original)),
          mkWorld
            (mkDb (users (db w))
               (<[data_accountId data :=
                    incremented a (netChange original data)]>
                  (accounts (db w)))
               (<[id := updated_row (LocalTZA env) data original]>
                  (transactions (db w))))
            (revalidated w
               ++ ["/dashboard"; "/account/" +:+ data_accountId data]))).
Proof.
  unfold updateTransaction, try_catch, bind, await, throw, ret.
  destruct (auth env) as [[[|c uid]|]|e]; simpl;
    try (left; eexists; reflexivity).
  unfold user_findUnique; simpl.
  destruct (users (db w) !! String c uid) as [user|] eqn:Hu;
    [|left; eexists; reflexivity].
  unfold transaction_findUnique; simpl.
  destruct (transactions (db w) !! id) as [original|] eqn:Ho; simpl;
    [|left; eexists; reflexivity].
  destruct (String.eqb (userId original) (user_id user)) eqn:Hown;
    [|left; eexists; reflexivity].
  unfold db_transaction, bind, transaction_update, account_update_increment,
    revalidatePath, ret; simpl.
  rewrite Ho, Hown; simpl.
  destruct (accounts (db w) !! data_accountId data) as [a|] eqn:Ha; simpl.
  - right. exists (String c uid), user, original, a. string_eqb.
    repeat split; eauto.
    by rewrite <- app_assoc.
  - left. eexists. by rewrite eta_World.
Qed.

(** A successful create, read off its result. *)
Lemma createTransaction_success env data w created w' :
  createTransaction env data w = (Normal (Success created), w') →
  ∃ user a,
    accounts (db w) !! data_accountId data = Some a ∧
    account_userId a = user_id user ∧
    transactions (db w) !! uuid env = None ∧
    created = created_row (LocalTZA env) data user ∧
    users (db w') = users (db w) ∧
    accounts (db w') =
      <[data_accountId data := incremented a (balanceChange data)]>
        (accounts (db w)) ∧
    transactions (db w') = <[uuid env := created]> (transactions (db w)).
Proof.
  intros H.
  destruct (createTransaction_cases env data w)
    as [[msg Hf] | (uid & user & a & _ & _ & _ & _ & Ha & Hown & Hid & Hs)];
    rewrite H in *; simplify_eq.
  exists user, a. simpl. auto 10.
Qed.

(** A successful update, read off its result. *)
Lemma updateTransaction_success env id data w updated w' :
  updateTransaction env id data w = (Normal (Success updated), w') →
  ∃ original a,
    transactions (db w) !! id = Some original ∧
    accounts (db w) !! data_accountId data = Some a ∧
    updated = updated_row (LocalTZA env) data original ∧
    users (db w') = users (db w) ∧
    accounts (db w') =
      <[data_accountId data := incremented a (netChange original data)]>
        (accounts (db w)) ∧
    transactions (db w') = <[id := updated]> (transactions (db w)).
Proof.
  intros H.
  destruct (updateTransaction_cases env id data w)
    as [[msg Hf] | (uid & user & original & a & _ & _ & _ & Ho & _ & Ha & Hs)];
    rewrite H in *; simplify_eq.
  exists original, a. simpl. auto 10.
Qed.

(** On the two transaction types the code's sign test ([EXPENSE] or not)
    and the specification's ([INCOME] or not) agree. *)
Lemma balanceChange_signedAmount data :
  validType (data_type data) →
  balanceChange data = signedAmount (data_type data) (data_amount data).
Proof. unfold balanceChange, signedAmount. by intros [-> | ->]. Qed.



(* ===================================================================== *)
(** ** Balance adjustment                                                 *)
(* ===================================================================== *)

(** C7.  For every amount [a], each of the three balance-change expressions
    of the actions ([balanceChange] in create, [oldChange] and [newChange]
    in update) yields [a] for an [INCOME] and [-a] for an [EXPENSE], and so
    does the specification's [signedAmount]. *)
Theorem signed_amount_of_type (a : Z) desc dt cat acc uid rec int nxt :
  let income := mkData "INCOME" a desc dt cat acc rec int in
  let expense := mkData "EXPENSE" a desc dt cat acc rec int in
  let stored ty := mkTransaction ty a desc dt cat acc uid rec int nxt in
  (signedAmount "INCOME" a = a ∧ signedAmount "EXPENSE" a = - a)
  ∧ (balanceChange income = a ∧ balanceChange expense = - a)
  ∧ (newChange income = a ∧ newChange expense = - a)
  ∧ (oldChange (stored "INCOME") = a ∧ oldChange (stored "EXPENSE") = - a).
Proof. repeat split. Qed.

(** C2.  A create call that succeeds leaves the balance of the account
    [data.accountId] at its prior value plus [signedAmount(type, amount)]:
    raised by [amount] for an [INCOME], lowered by [amount] for an
    [EXPENSE]. *)
Theorem create_balance env data w created w' :
  validType (data_type data) →
  createTransaction env data w = (Normal (Success created), w') →
  ∃ prior,
    balanceOf w (data_accountId data) = Some prior
    ∧ balanceOf w' (data_accountId data)
      = Some (prior + signedAmount (data_type data) (data_amount data))
    ∧ (data_type data = "INCOME" →
       balanceOf w' (data_accountId data) = Some (prior + data_amount data))
    ∧ (data_type data = "EXPENSE" →
       balanceOf w' (data_accountId data) = Some (prior - data_amount data)).
Proof.
  intros Hty H.
  apply createTransaction_success in H
    as (user & a & Ha & _ & _ & _ & _ & Hacc & _).
  exists (balance a). unfold balanceOf.
  rewrite Ha, Hacc, lookup_insert_eq; simpl.
  rewrite (balanceChange_signedAmount _ Hty).
  repeat split; intros ->; unfold signedAmount; simpl; f_equal; lia.
Qed.



(* ===================================================================== *)
(** ** The balance as a running sum                                       *)
(* ===================================================================== *)

Section StoredSum.
Implicit Types (m : gmap string Transaction) (r : Transaction).

Lemma add_row_comm aid (j1 j2 : string) r1 r2 total :
  add_row aid j1 r1 (add_row aid j2 r2 total)
  = add_row aid j2 r2 (add_row aid j1 r1 total).
Proof. unfold add_row. lia. Qed.

Lemma storedSum_insert_new us acs m id r aid :
  m !! id = None →
  storedSum (mkDb us acs (<[id := r]> m)) aid
  = contribution aid r + storedSum (mkDb us acs m) aid.
Proof.
  intros Hid. unfold storedSum; simpl.
  rewrite map_fold_insert_L; [done | | done].
  intros. apply (add_row_comm aid j1 j2).
Qed.

Lemma storedSum_insert_over us acs m id old r aid :
  m !! id = Some old →
  storedSum (mkDb us acs (<[id := r]> m)) aid
  = contribution aid r - contribution aid old
    + storedSum (mkDb us acs m) aid.
Proof.
  intros Hid. unfold storedSum; simpl.
  rewrite <- (insert_delete_eq m id r).
  rewrite map_fold_insert_L;
    [ | intros; apply (add_row_comm aid j1 j2) | apply lookup_delete_eq ].
  rewrite (map_fold_delete_L _ 0 id old m);
    [ unfold add_row; lia | intros; apply (add_row_comm aid j1 j2) | done ].
Qed.
End StoredSum.

Lemma storedSum_transactions d us acs aid :
  storedSum (mkDb us acs (transactions d)) aid = storedSum d aid.
Proof. reflexivity. Qed.

(** The row a create call stores contributes exactly [balanceChange]. *)
Lemma contribution_created tza data user aid :
  contribution aid (created_row tza data user)
  = if String.eqb (data_accountId data) aid then balanceChange data else 0.
Proof. reflexivity. Qed.

Lemma contribution_updated tza data r aid :
  contribution aid (updated_row tza data r)
  = if String.eqb (data_accountId data) aid then newChange data else 0.
Proof. reflexivity. Qed.

(** Create keeps every balance equal to the sum of the account's rows. *)
Lemma createTransaction_balanced env data w r w' :
  balanced (db w) →
  createTransaction env data w = (r, w') →
  balanced (db w').
Proof.
  intros Hb H.
  destruct (createTransaction_cases env data w)
    as [[msg Hf] | (uid & user & a & _ & _ & _ & _ & Ha & _ & Hid & Hs)];
    rewrite H in *; simplify_eq; [done|].
  intros aid a' Hlk; simpl in *.
  rewrite storedSum_insert_new, storedSum_transactions, contribution_created
    by done.
  destruct (decide (data_accountId data = aid)) as [<- | Hne].
  - rewrite lookup_insert_eq in Hlk. simplify_eq; simpl.
    rewrite String.eqb_refl, <- (Hb _ _ Ha). lia.
  - rewrite lookup_insert_ne in Hlk by done.
    apply String.eqb_neq in Hne. rewrite Hne, <- (Hb _ _ Hlk). lia.
Qed.

(** So does an update that leaves the transaction in its account, when the
    old and the new amount are small enough for their difference to be
    exact. *)
Lemma netChange_safe original data :
  safeAmount (amount original) →
  safeAmount (data_amount data) →
  netChange original data = newChange data - oldChange original.
Proof.
  intros H0 H1. unfold netChange. apply number_sub_safe.
  - unfold newChange. destruct (String.eqb _ _); [by apply safeAmount_opp|done].
  - unfold oldChange, toNumber.
    destruct (String.eqb _ _); [by apply safeAmount_opp|done].
Qed.

Lemma updateTransaction_balanced env id data w original r w' :
  balanced (db w) →
  transactions (db w) !! id = Some original →
  accountId original = data_accountId data →
  safeAmount (amount original) →
  safeAmount (data_amount data) →
  updateTransaction env id data w = (r, w') →
  balanced (db w').
Proof.
  intros Hb Ho Hsame Hs0 Hs1 H.
  destruct (updateTransaction_cases env id data w)
    as [[msg Hf] | (uid & user & o & a & _ & _ & _ & Ho' & _ & Ha & Hs)];
    rewrite H in *; simplify_eq; [done|].
  intros aid a' Hlk; simpl in *.
  rewrite (storedSum_insert_over _ _ _ _ original), storedSum_transactions,
    contribution_updated by done.
  unfold contribution. rewrite Hsame.
  destruct (decide (data_accountId data = aid)) as [<- | Hne].
  - rewrite lookup_insert_eq in Hlk. simplify_eq; simpl.
    rewrite String.eqb_refl, <- (Hb _ _ Ha), netChange_safe by done. lia.
  - rewrite lookup_insert_ne in Hlk by done.
    apply String.eqb_neq in Hne. rewrite Hne, <- (Hb _ _ Hlk). lia.
Qed.

(** An update that changes neither type nor amount has net change 0. *)
Lemma netChange_unchanged original data :
  data_type data = type original →
  data_amount data = amount original →
  netChange original data = 0.
Proof.
  intros Hty Ham. unfold netChange, newChange, oldChange, toNumber.
  rewrite Hty, Ham. apply number_sub_diag.
Qed.

(* ===================================================================== *)
(** ** Worked examples for the balance adjustment                         *)
(* ===================================================================== *)

Import Household.

(** Scenario of the specification: balance 100, EXPENSE 30, balance 70,
    and no next-recurrence date on the row. *)
Example create_groceries :
  fst (createTransaction alice groceries home)
  = Normal (Success (created_row 0 groceries (mkUser "alice")))
  ∧ balanceOf (snd (createTransaction alice groceries home)) "acc_A" = Some 70
  ∧ nextRecurringDate (created_row 0 groceries (mkUser "alice")) = None.
Proof. by vm_compute. Qed.

Lemma create_balance_witness :
  ∃ prior,
    balanceOf home (data_accountId groceries) = Some prior
    ∧ balanceOf (snd (createTransaction alice groceries home))
        (data_accountId groceries)
      = Some (prior + signedAmount (data_type groceries)
                        (data_amount groceries))
    ∧ (data_type groceries = "INCOME" →
       balanceOf (snd (createTransaction alice groceries home))
         (data_accountId groceries)
       = Some (prior + data_amount groceries))
    ∧ (data_type groceries = "EXPENSE" →
       balanceOf (snd (createTransaction alice groceries home))
         (data_accountId groceries)
       = Some (prior - data_amount groceries)).
Proof.
  apply (create_balance alice groceries home
           (created_row 0 groceries (mkUser "alice"))).
  - right. reflexivity.
  - vm_compute. reflexivity.
Defined.



(** INCOME 100 edited to EXPENSE 30: the balance moves by -30 - 100. *)
Example update_refund :
  balanceOf (snd (updateTransaction alice "tx_0" refund home)) "acc_A"
  = Some (-30).
Proof. by vm_compute. Qed.

(** Scenario of the specification: a stored EXPENSE 30 becomes INCOME 50
    on an account holding 70; the balance becomes 150. *)
Example update_expense_to_income :
  let w1 := snd (createTransaction alice groceries home) in
  let edit := mkData "INCOME" 50 "groceries" jan15 "food" "acc_A" false None in
  balanceOf w1 "acc_A" = Some 70
  ∧ balanceOf (snd (updateTransaction alice "tx_1" edit w1)) "acc_A"
    = Some 150.
Proof. by vm_compute. Qed.

(** Amount only, type only, and an update that changes neither. *)
Example update_one_field :
  let w1 := snd (createTransaction alice groceries home) in
  let amountOnly :=
    mkData "EXPENSE" 45 "groceries" jan15 "food" "acc_A" false None in
  let typeOnly :=
    mkData "INCOME" 30 "groceries" jan15 "food" "acc_A" false None in
  balanceOf (snd (updateTransaction alice "tx_1" amountOnly w1)) "acc_A"
  = Some (70 + (-45 - -30))
  ∧ balanceOf (snd (updateTransaction alice "tx_1" typeOnly w1)) "acc_A"
    = Some (70 + (30 - -30))
  ∧ balanceOf (snd (updateTransaction alice "tx_1" groceries w1)) "acc_A"
    = Some 70.
Proof. by vm_compute. Qed.

(** A failure in the middle of the write unit: the row update has gone
    through when the balance increment finds no account, and the rollback
    of [db.$transaction] puts the stored row back. *)
Example update_rolled_back :
  (let body :=
     txUpdated <- transaction_update "tx_0" "alice" (updated_row 0 toNowhere) ;;
     _ <- account_update_increment "acc_Z" (netChange salary toNowhere) ;;
     ret txUpdated in
   fst (body home) = Throw P2025
   ∧ transactions (db (snd (body home))) !! "tx_0"
     = Some (updated_row 0 toNowhere salary)
   ∧ db_transaction body home = (Throw P2025, home))
  ∧ updateTransaction alice "tx_0" toNowhere home
    = (Normal (Failure P2025), home).
Proof. by vm_compute. Qed.

(** C3.  The running-sum invariant is lost by an update that names another
    account.  In [home] every balance is the sum of its account's rows;
    Alice's update of [tx_0] with [accountId] changed from [acc_A] to
    [acc_B] succeeds and stores the row under [acc_B], but the only balance
    touched is that of [acc_B], by [newChange - oldChange = 0]: [acc_A]
    keeps 100 with no row left, [acc_B] keeps 0 with a row worth 100. *)
Theorem update_to_other_account_unbalanced :
  let w' := snd (updateTransaction alice "tx_0" moved home) in
  balanced (db home)
  ∧ fst (updateTransaction alice "tx_0" moved home)
    = Normal (Success (updated_row 0 moved salary))
  ∧ transactions (db w') !! "tx_0" = Some (updated_row 0 moved salary)
  ∧ (balanceOf w' "acc_A" = Some 100 ∧ storedSum (db w') "acc_A" = 0)
  ∧ (balanceOf w' "acc_B" = Some 0 ∧ storedSum (db w') "acc_B" = 100)
  ∧ bool_decide (balanced (db w')) = false.
Proof.
  split; [| by vm_compute].
  apply (bool_decide_unpack _). by vm_compute.
Qed.

(** C5.  The update path does not check who owns [data.accountId].  Create
    refuses Bob's account to Alice with "Account not found" and changes
    nothing; update, given the same account, succeeds and raises Bob's
    balance from 500 to 750.  Only an account that does not exist at all
    makes update fail, with the store's error, and then nothing changes. *)
Theorem update_changes_foreign_balance :
  let w' := snd (updateTransaction alice "tx_0" toBob home) in
  (account_userId <$> accounts (db home) !! "acc_C") = Some "bob"
  ∧ createTransaction alice toBob home
    = (Normal (Failure "Account not found"), home)
  ∧ fst (updateTransaction alice "tx_0" toBob home)
    = Normal (Success (updated_row 0 toBob salary))
  ∧ balanceOf home "acc_C" = Some 500
  ∧ balanceOf w' "acc_C" = Some 750
  ∧ updateTransaction alice "tx_0" toNowhere home
    = (Normal (Failure P2025), home).
Proof. by vm_compute. Qed.

(** Create: an account that is missing, or owned by somebody else, is
    reported as not found, and nothing is written. *)
Lemma createTransaction_account_not_found env data w uid dec user :
  auth env = Normal (Some uid) → uid ≠ EmptyString →
  protect env uid = Normal dec → isDenied dec = false →
  users (db w) !! uid = Some user →
  (∀ a, accounts (db w) !! data_accountId data = Some a →
        account_userId a ≠ user_id user) →
  createTransaction env data w = (Normal (Failure "Account not found"), w).
Proof.
  intros Hauth Hne Hp Hden Hu Hacc.
  unfold createTransaction, try_catch, bind, await, throw, ret.
  rewrite Hauth. destruct uid as [|c uid]; [done|].
  rewrite Hp, Hden. unfold user_findUnique; simpl. rewrite Hu.
  unfold account_findUnique; simpl.
  destruct (accounts (db w) !! data_accountId data) as [a|] eqn:Ha;
    simpl; [|done].
  destruct (String.eqb (account_userId a) (user_id user)) eqn:Hown; [|done].
  string_eqb. by destruct (Hacc a).
Qed.

(** Update: an account that is missing makes the call fail with nothing
    written. *)
Lemma updateTransaction_account_missing env id data w :
  accounts (db w) !! data_accountId data = None →
  ∃ msg, updateTransaction env id data w = (Normal (Failure msg), w).
Proof.
  intros Hnone.
  destruct (updateTransaction_cases env id data w)
    as [Hf | (uid & user & o & a & _ & _ & _ & _ & _ & Ha & _)];
    [done | congruence].
Qed.

(** Update: any existing account will do, whoever owns it. *)
Lemma updateTransaction_commits env id data w uid user original a :
  auth env = Normal (Some uid) → uid ≠ EmptyString →
  users (db w) !! uid = Some user →
  transactions (db w) !! id = Some original →
  userId original = user_id user →
  accounts (db w) !! data_accountId data = Some a →
  ∃ w', updateTransaction env id data w
        = (Normal (Success (updated_row (LocalTZA env) data original)), w')
        ∧ balanceOf w' (data_accountId data)
          = Some (balance a + netChange original data).
Proof.
  intros Hauth Hne Hu Ho Hown Ha.
  destruct (updateTransaction_cases env id data w)
    as [[msg Hf] | (uid' & user' & o & a' & ? & ? & ? & ? & ? & ? & Hs)].
  - exfalso. revert Hf.
    unfold updateTransaction, try_catch, bind, await, throw, ret.
    rewrite Hauth. destruct uid as [|c uid]; [done|].
    unfold user_findUnique; simpl. rewrite Hu.
    unfold transaction_findUnique; simpl. rewrite Ho; simpl.
    apply String.eqb_eq in Hown. rewrite Hown.
    unfold db_transaction, bind, transaction_update,
      account_update_increment, revalidatePath, ret; simpl.
    rewrite Ho, Hown; simpl. by rewrite Ha.
  - simplify_eq. eexists. split; [exact Hs|].
    unfold balanceOf; simpl. by rewrite lookup_insert_eq.
Qed.

(* ===================================================================== *)
(** ** Recurrence fields                                                  *)
(* ===================================================================== *)

(** C6, as stated, fails: create stores a row whose recurrence flag is set
    while no interval and no next date are present. *)
Lemma create_flag_without_interval :
  fst (createTransaction alice flagOnly home)
  = Normal (Success (created_row 0 flagOnly (mkUser "alice")))
  ∧ transactions (db (snd (createTransaction alice flagOnly home))) !! "tx_1"
    = Some (created_row 0 flagOnly (mkUser "alice"))
  ∧ isRecurring (created_row 0 flagOnly (mkUser "alice")) = true
  ∧ recurringInterval (created_row 0 flagOnly (mkUser "alice")) = None
  ∧ nextRecurringDate (created_row 0 flagOnly (mkUser "alice")) = None
  ∧ recurrenceConsistent 0 (created_row 0 flagOnly (mkUser "alice")) = false.
Proof. by vm_compute. Qed.

(** The same on the update path, and with the roles exchanged: an interval
    is stored next to a flag that is not set. *)
Example update_interval_without_flag :
  fst (updateTransaction alice "tx_0" intervalOnly home)
  = Normal (Success (updated_row 0 intervalOnly salary))
  ∧ recurrenceConsistent 0 (updated_row 0 intervalOnly salary) = false.
Proof. by vm_compute. Qed.

(** Scenario of the specification: MONTHLY from 2024-01-15 gives
    2024-02-15. *)
Example create_monthly :
  nextRecurringDate (created_row 0 monthly (mkUser "alice"))
  = Some (Some 1707955200000).
Proof. by vm_compute. Qed.

Lemma nextRecurringDate_of_Some tza data d :
  nextRecurringDate_of tza data = Some d ↔
  (data_isRecurring data = true
   ∧ truthy (data_recurringInterval data) = true)
  ∧ d = calculateNextRecurringDate tza (data_date data)
          (data_recurringInterval data).
Proof.
  unfold nextRecurringDate_of.
  destruct (data_isRecurring data), (truthy (data_recurringInterval data));
    simpl; split; try (intros [[? ?] ?]; discriminate); try discriminate.
  - intros [= <-]. auto.
  - by intros [_ ->].
Qed.

(** The stored interval survives an update that names none: a monthly
    subscription switched off keeps MONTHLY next to a cleared flag and no
    next date. *)
Example update_keeps_interval :
  let w1 := snd (createTransaction alice monthly home) in
  let stored := created_row 0 monthly (mkUser "alice") in
  transactions (db w1) !! "tx_1" = Some stored
  ∧ fst (updateTransaction alice "tx_1" stopped w1)
    = Normal (Success (updated_row 0 stopped stored))
  ∧ isRecurring (updated_row 0 stopped stored) = false
  ∧ recurringInterval (updated_row 0 stopped stored) = Some "MONTHLY"
  ∧ nextRecurringDate (updated_row 0 stopped stored) = None
  ∧ recurrenceConsistent 0 (updated_row 0 stopped stored) = false.
Proof. by vm_compute. Qed.

(** What both writers guarantee about a row built from [data]: the flag
    and the date are those of [data], and so is the interval when [data]
    names one. *)
Lemma written_row_recurrence tza data r :
  isRecurring r = data_isRecurring data →
  (∀ interval, data_recurringInterval data = Some interval →
               recurringInterval r = Some interval) →
  date r = data_date data →
  nextRecurringDate r = nextRecurringDate_of tza data →
  (∀ d, nextRecurringDate r = Some d ↔
        (data_isRecurring data = true
         ∧ truthy (data_recurringInterval data) = true)
        ∧ d = calculateNextRecurringDate tza (date r) (recurringInterval r))
  ∧ (recurrenceConsistent tza r = true ↔
     isRecurring r = truthy (recurringInterval r)
     ∧ (isRecurring r = true → truthy (data_recurringInterval data) = true)).
Proof.
  intros Hflag Hint Hdate Hn.
  assert (Hsame : truthy (data_recurringInterval data) = true →
                  recurringInterval r = data_recurringInterval data).
  { destruct (data_recurringInterval data) as [interval|]; [|done].
    intros _. by apply Hint. }
  split.
  - intros d. rewrite Hn, Hdate, nextRecurringDate_of_Some.
    split; intros [[Hf Ht] ->]; (split; [done|]); by rewrite (Hsame Ht).
  - unfold recurrenceConsistent. rewrite Hn, Hflag, Hdate.
    unfold nextRecurringDate_of.
    destruct (data_isRecurring data) eqn:Hf,
             (truthy (data_recurringInterval data)) eqn:Ht; simpl.
    + rewrite (Hsame eq_refl), Ht; simpl.
      by rewrite !bool_decide_eq_true_2 by (done || by eexists).
    + destruct (truthy (recurringInterval r)); simpl;
        split; try done; by intros [_ H]; specialize (H eq_refl).
    + destruct (truthy (recurringInterval r)); simpl;
        split; try done; by intros [? _].
    + destruct (truthy (recurringInterval r)); simpl;
        split; try done; by intros [? _].
Qed.

(** C6, amended.  Every row written by a successful create or update
    carries the flag of [data] as supplied.  Create stores the interval as
    supplied; update stores the interval [data] names and, when [data] names
    none, leaves the stored one in place.  The next-recurrence date is
    present exactly when the supplied flag is set and an interval is
    supplied, and then equals [advance(date, interval)].  The three fields
    of the written row are mutually consistent exactly when its flag is set
    iff its interval is present, and a set flag came with an interval. *)
Theorem written_recurrence_fields env id data w r w' :
  createTransaction env data w = (Normal (Success r), w')
  ∨ updateTransaction env id data w = (Normal (Success r), w') →
  (transactions (db w') !! uuid env = Some r
   ∨ transactions (db w') !! id = Some r)
  ∧ isRecurring r = data_isRecurring data
  ∧ (createTransaction env data w = (Normal (Success r), w') →
     recurringInterval r = data_recurringInterval data)
  ∧ (updateTransaction env id data w = (Normal (Success r), w') →
     ∃ original,
       transactions (db w) !! id = Some original
       ∧ recurringInterval r
         = match data_recurringInterval data with
           | Some interval => Some interval
           | None => recurringInterval original
           end)
  ∧ (∀ d, nextRecurringDate r = Some d ↔
          (data_isRecurring data = true
           ∧ truthy (data_recurringInterval data) = true)
          ∧ d = calculateNextRecurringDate (LocalTZA env) (date r)
                  (recurringInterval r))
  ∧ (recurrenceConsistent (LocalTZA env) r = true ↔
     isRecurring r = truthy (recurringInterval r)
     ∧ (isRecurring r = true → truthy (data_recurringInterval data) = true)).
Proof.
  intros H.
  assert (Hc : createTransaction env data w = (Normal (Success r), w') →
               recurringInterval r = data_recurringInterval data).
  { intros Hc. apply createTransaction_success in Hc
      as (user & a & _ & _ & _ & -> & _). done. }
  assert (Hu : updateTransaction env id data w = (Normal (Success r), w') →
               ∃ original,
                 transactions (db w) !! id = Some original
                 ∧ recurringInterval r
                   = match data_recurringInterval data with
                     | Some interval => Some interval
                     | None => recurringInterval original
                     end).
  { intros Hu. apply updateTransaction_success in Hu
      as (original & a & Ho & _ & -> & _). by exists original. }
  destruct H as [H | H].
  - apply createTransaction_success in H
      as (user & a & _ & _ & _ & -> & _ & _ & Htx).
    split; [left; by rewrite Htx, lookup_insert_eq|].
    do 3 (split; [done|]). by apply written_row_recurrence.
  - apply updateTransaction_success in H
      as (original & a & _ & _ & -> & _ & _ & Htx).
    split; [right; by rewrite Htx, lookup_insert_eq|].
    do 3 (split; [done|]). apply written_row_recurrence; try done.
    simpl. by intros interval ->.
Qed.

Lemma written_recurrence_fields_witness :
  let r := created_row 0 monthly (mkUser "alice") in
  let w' := snd (createTransaction alice monthly home) in
  (transactions (db w') !! uuid alice = Some r
   ∨ transactions (db w') !! "tx_0" = Some r)
  ∧ isRecurring r = data_isRecurring monthly
  ∧ (createTransaction alice monthly home = (Normal (Success r), w') →
     recurringInterval r = data_recurringInterval monthly)
  ∧ (updateTransaction alice "tx_0" monthly home = (Normal (Success r), w') →
     ∃ original,
       transactions (db home) !! "tx_0" = Some original
       ∧ recurringInterval r
         = match data_recurringInterval monthly with
           | Some interval => Some interval
           | None => recurringInterval original
           end)
  ∧ (∀ d, nextRecurringDate r = Some d ↔
          (data_isRecurring monthly = true
           ∧ truthy (data_recurringInterval monthly) = true)
          ∧ d = calculateNextRecurringDate (LocalTZA alice) (date r)
                  (recurringInterval r))
  ∧ (recurrenceConsistent (LocalTZA alice) r = true ↔
     isRecurring r = truthy (recurringInterval r)
     ∧ (isRecurring r = true → truthy (data_recurringInterval monthly) = true)).
Proof.
  apply (written_recurrence_fields alice "tx_0" monthly home).
  left. vm_compute. reflexivity.
Defined.

(* ===================================================================== *)
(** ** The recurrence date calculator                                     *)
(* ===================================================================== *)

Lemma calculateNextRecurringDate_DAILY tza d :
  calculateNextRecurringDate tza d (Some "DAILY")
  = Date.setDate tza d (js_add (Date.getDate tza d) 1).
Proof. reflexivity. Qed.

Lemma calculateNextRecurringDate_WEEKLY tza d :
  calculateNextRecurringDate tza d (Some "WEEKLY")
  = Date.setDate tza d (js_add (Date.getDate tza d) 7).
Proof. reflexivity. Qed.

Lemma calculateNextRecurringDate_MONTHLY tza d :
  calculateNextRecurringDate tza d (Some "MONTHLY")
  = Date.setMonth tza d (js_add (Date.getMonth tza d) 1).
Proof. reflexivity. Qed.

Lemma calculateNextRecurringDate_YEARLY tza d :
  calculateNextRecurringDate tza d (Some "YEARLY")
  = Date.setFullYear tza d (js_add (Date.getFullYear tza d) 1).
Proof. reflexivity. Qed.

(** Whatever the date, DAILY and WEEKLY move the time value by one and by
    seven days' worth of milliseconds, up to the clipping every [Date]
    write applies. *)
Lemma advance_days_clipped tza tv :
  calculateNextRecurringDate tza (Some tv) (Some "DAILY")
  = Date.TimeClip (tv + 1 * Date.msPerDay)
  ∧ calculateNextRecurringDate tza (Some tv) (Some "WEEKLY")
    = Date.TimeClip (tv + 7 * Date.msPerDay).
Proof.
  rewrite calculateNextRecurringDate_DAILY, calculateNextRecurringDate_WEEKLY.
  split; apply DateFacts.setDate_getDate_add.
Qed.

(** An Invalid Date stays invalid. *)
Lemma advance_invalid tza interval :
  calculateNextRecurringDate tza None interval = None.
Proof.
  unfold calculateNextRecurringDate.
  by repeat (destruct (strict_eq interval _)).
Qed.

(** C8.  For every date [tv], [advance(tv, DAILY)] is the date exactly one
    day (86 400 000 ms) later and [advance(tv, WEEKLY)] the date exactly
    seven days later, whenever that later instant is a date at all; the
    local time of day is kept and the local day number is raised by 1 and
    by 7, so that month and year change only as the calendar demands. *)
Theorem advance_daily_weekly tza tv :
  let lt := Date.LocalTime tza in
  (validTime (tv + Date.msPerDay) →
   calculateNextRecurringDate tza (Some tv) (Some "DAILY")
   = Some (tv + Date.msPerDay))
  ∧ (validTime (tv + 7 * Date.msPerDay) →
     calculateNextRecurringDate tza (Some tv) (Some "WEEKLY")
     = Some (tv + 7 * Date.msPerDay))
  ∧ (Date.Day (lt (tv + Date.msPerDay)) = Date.Day (lt tv) + 1
     ∧ Date.TimeWithinDay (lt (tv + Date.msPerDay))
       = Date.TimeWithinDay (lt tv))
  ∧ (Date.Day (lt (tv + 7 * Date.msPerDay)) = Date.Day (lt tv) + 7
     ∧ Date.TimeWithinDay (lt (tv + 7 * Date.msPerDay))
       = Date.TimeWithinDay (lt tv)).
Proof.
  intros lt.
  destruct (advance_days_clipped tza tv) as [Hd Hw].
  split; [|split].
  - intros Hv. rewrite Hd, Z.mul_1_l. by apply DateFacts.TimeClip_in_range.
  - intros Hv. rewrite Hw. by apply DateFacts.TimeClip_in_range.
  - subst lt. unfold Date.LocalTime, Date.Day, Date.TimeWithinDay.
    replace (tv + Date.msPerDay + tza)
      with (tv + tza + 1 * Date.msPerDay) by lia.
    replace (tv + 7 * Date.msPerDay + tza)
      with (tv + tza + 7 * Date.msPerDay) by lia.
    rewrite !Z.div_add, !Z.mod_add by (unfold Date.msPerDay; lia).
    auto.
Qed.

Lemma advance_daily_weekly_witness :
  calculateNextRecurringDate 0 jan31 (Some "DAILY")
  = Some (1706659200000 + Date.msPerDay)
  ∧ calculateNextRecurringDate 0 jan31 (Some "WEEKLY")
    = Some (1706659200000 + 7 * Date.msPerDay).
Proof.
  destruct (advance_daily_weekly 0 1706659200000) as (Hd & Hw & _).
  split; [apply Hd | apply Hw];
    unfold validTime, Date.maxTime, Date.msPerDay; lia.
Defined.

(** Jan 31 with DAILY is Feb 1, with WEEKLY Feb 7; Dec 31 with DAILY is
    Jan 1 of the next year; Feb 28 of a leap year with DAILY is Feb 29. *)
Example daily_at_month_end :
  calculateNextRecurringDate 0 jan31 (Some "DAILY") = feb01
  ∧ calculateNextRecurringDate 0 jan31 (Some "WEEKLY") = feb07
  ∧ (Date.getFullYear 0 jan31, Date.getMonth 0 jan31, Date.getDate 0 jan31)
    = (Some 2024, Some 0, Some 31)
  ∧ (Date.getFullYear 0 feb01, Date.getMonth 0 feb01, Date.getDate 0 feb01)
    = (Some 2024, Some 1, Some 1)
  ∧ (let d := calculateNextRecurringDate 0 (Some 1735603200000)
                (Some "DAILY") in
     (Date.getFullYear 0 d, Date.getMonth 0 d, Date.getDate 0 d)
     = (Some 2025, Some 0, Some 1))
  ∧ (let d := calculateNextRecurringDate 0 (Some 1709078400000)
                (Some "DAILY") in
     (Date.getFullYear 0 d, Date.getMonth 0 d, Date.getDate 0 d)
     = (Some 2024, Some 1, Some 29)).
Proof. by vm_compute. Qed.

(** C10.  [calculateNextRecurringDate] is a total function, and for every
    interval other than DAILY, WEEKLY, MONTHLY and YEARLY, an absent one
    included, it returns the start date unchanged. *)
Theorem calculateNextRecurringDate_other tza startDate interval :
  interval ≠ Some "DAILY" → interval ≠ Some "WEEKLY" →
  interval ≠ Some "MONTHLY" → interval ≠ Some "YEARLY" →
  calculateNextRecurringDate tza startDate interval = startDate.
Proof.
  intros Hd Hw Hm Hy.
  assert (Hneq : ∀ lit, interval ≠ Some lit → strict_eq interval lit = false).
  { intros lit Hne. destruct interval as [s|]; [|done]. simpl.
    apply String.eqb_neq. congruence. }
  unfold calculateNextRecurringDate.
  by rewrite (Hneq _ Hd), (Hneq _ Hw), (Hneq _ Hm), (Hneq _ Hy).
Qed.

Lemma calculateNextRecurringDate_other_witness :
  calculateNextRecurringDate 0 jan31 None = jan31
  ∧ calculateNextRecurringDate 0 jan31 (Some "HOURLY") = jan31
  ∧ calculateNextRecurringDate 0 jan31 (Some "daily") = jan31
  ∧ calculateNextRecurringDate 0 None (Some EmptyString) = None.
Proof.
  split; [|split; [|split]];
    apply calculateNextRecurringDate_other; discriminate.
Defined.

(* ===================================================================== *)
(** ** Where failures surface                                             *)
(* ===================================================================== *)

(** The three guarded actions always resolve. *)
Lemma createTransaction_resolves env data w :
  ∃ r w', createTransaction env data w = (Normal r, w').
Proof.
  destruct (createTransaction_cases env data w)
    as [[msg Hf] | (? & ? & ? & _ & _ & _ & _ & _ & _ & _ & Hs)]; eauto.
Qed.

Lemma updateTransaction_resolves env id data w :
  ∃ r w', updateTransaction env id data w = (Normal r, w').
Proof.
  destruct (updateTransaction_cases env id data w)
    as [[msg Hf] | (? & ? & ? & ? & _ & _ & _ & _ & _ & _ & Hs)]; eauto.
Qed.

Lemma getUserTransactions_resolves env query w :
  ∃ r, getUserTransactions env query w = (Normal r, w).
Proof.
  unfold getUserTransactions, try_catch, bind, await, throw, ret.
  destruct (auth env) as [[[|c uid]|]|e]; simpl; eauto.
  unfold user_findUnique; simpl.
  destruct (users (db w) !! String c uid); simpl; eauto.
Qed.

Lemma transaction_findUnique_notOwned w id owner :
  notOwned w id owner →
  transaction_findUnique id owner w = (Normal None, w).
Proof.
  intros Hno. unfold transaction_findUnique.
  destruct (transactions (db w) !! id) as [r|] eqn:Hr; simpl; [|done].
  destruct (String.eqb (userId r) owner) eqn:Hown; [|done].
  string_eqb. by destruct (Hno r).
Qed.

(** C9.  For every input, create, update and list resolve to a result
    value, a success with data or a failure with a message, and never
    throw; get has no such boundary.  A collaborator error, a missing
    caller, a caller without a user row and a transaction that is missing
    or not the caller's each come back as [{ success: false, error }] from
    the guarded actions that reach them, and as a thrown error, with the
    same message, from get. *)
Theorem failures_caught_or_thrown env id data query w :
  ((∃ r w', createTransaction env data w = (Normal r, w'))
   ∧ (∃ r w', updateTransaction env id data w = (Normal r, w'))
   ∧ (∃ r w', getUserTransactions env query w = (Normal r, w')))
  ∧ (∀ e, auth env = Throw e →
       createTransaction env data w = (Normal (Failure e), w)
       ∧ updateTransaction env id data w = (Normal (Failure e), w)
       ∧ getUserTransactions env query w = (Normal (Failure e), w)
       ∧ getTransaction env id w = (Throw e, w))
  ∧ (auth env = Normal None ∨ auth env = Normal (Some EmptyString) →
       createTransaction env data w = (Normal (Failure "Unauthorized"), w)
       ∧ updateTransaction env id data w
         = (Normal (Failure "Unauthorized"), w)
       ∧ getUserTransactions env query w
         = (Normal (Failure "Unauthorized"), w)
       ∧ getTransaction env id w = (Throw "Unauthorized", w))
  ∧ (∀ uid, auth env = Normal (Some uid) → uid ≠ EmptyString →
       users (db w) !! uid = None →
       updateTransaction env id data w
       = (Normal (Failure "User not found"), w)
       ∧ getUserTransactions env query w
         = (Normal (Failure "User not found"), w)
       ∧ getTransaction env id w = (Throw "User not found", w))
  ∧ (∀ uid user, auth env = Normal (Some uid) → uid ≠ EmptyString →
       users (db w) !! uid = Some user →
       notOwned w id (user_id user) →
       updateTransaction env id data w
       = (Normal (Failure "Transaction not found"), w)
       ∧ getTransaction env id w = (Throw "Transaction not found", w)).
Proof.
  split; [|split; [|split; [|split]]].
  - destruct (createTransaction_resolves env data w) as (r1 & w1 & H1).
    destruct (updateTransaction_resolves env id data w) as (r2 & w2 & H2).
    destruct (getUserTransactions_resolves env query w) as (r3 & H3).
    eauto 10.
  - intros e He.
    unfold createTransaction, updateTransaction, getUserTransactions,
      getTransaction, try_catch, bind, await, throw, ret.
    by rewrite He.
  - unfold createTransaction, updateTransaction, getUserTransactions,
      getTransaction, try_catch, bind, await, throw, ret.
    by intros [-> | ->].
  - intros uid Hauth Hne Hu.
    unfold updateTransaction, getUserTransactions, getTransaction,
      try_catch, bind, await, throw, ret, user_findUnique.
    rewrite Hauth. destruct uid as [|c uid]; [done|]. simpl.
    by rewrite Hu.
  - intros uid user Hauth Hne Hu Hno.
    unfold updateTransaction, getTransaction,
      try_catch, bind, await, throw, ret, user_findUnique.
    rewrite Hauth. destruct uid as [|c uid]; [done|]. cbv beta iota.
    rewrite Hu. by rewrite (transaction_findUnique_notOwned _ _ _ Hno).
Qed.

(** When nothing fails, get returns the caller's row. *)
Lemma getTransaction_found env id w uid user r :
  auth env = Normal (Some uid) → uid ≠ EmptyString →
  users (db w) !! uid = Some user →
  transactions (db w) !! id = Some r →
  userId r = user_id user →
  getTransaction env id w = (Normal (serializeAmount r), w).
Proof.
  intros Hauth Hne Hu Hr Hown.
  unfold getTransaction, bind, await, throw, ret, user_findUnique,
    transaction_findUnique.
  rewrite Hauth. destruct uid as [|c uid]; [done|]. simpl.
  rewrite Hu, Hr; simpl. apply String.eqb_eq in Hown. by rewrite Hown.
Qed.

Lemma failures_caught_or_thrown_witness :
  createTransaction anonymous groceries home
  = (Normal (Failure "Unauthorized"), home)
  ∧ updateTransaction anonymous "tx_0" groceries home
    = (Normal (Failure "Unauthorized"), home)
  ∧ getUserTransactions anonymous emptyQuery home
    = (Normal (Failure "Unauthorized"), home)
  ∧ getTransaction anonymous "tx_0" home = (Throw "Unauthorized", home).
Proof.
  destruct (failures_caught_or_thrown anonymous "tx_0" groceries emptyQuery
              home) as (_ & _ & H & _).
  apply H. left. reflexivity.
Defined.

(** Alice asks for Bob's row: update reports it, get throws. *)
Example foreign_row_not_found :
  updateTransaction alice "tx_9" groceries home
  = (Normal (Failure "Transaction not found"), home)
  ∧ getTransaction alice "tx_9" home = (Throw "Transaction not found", home)
  ∧ getTransaction alice "tx_0" home = (Normal salary, home).
Proof. by vm_compute. Qed.

(* ===================================================================== *)
(** ** More about dates: months and years                                 *)
(* ===================================================================== *)

Module CalendarFacts.
Import Date.

Lemma step_div (x k : Z) : 0 < k →
  (x + 1) / k = x / k + (if (x + 1) mod k =? 0 then 1 else 0).
Proof.
  intros Hk.
  pose proof (Z.div_mod x k ltac:(lia)). pose proof (Z.mod_pos_bound x k Hk).
  pose proof (Z.div_mod (x+1) k ltac:(lia)). pose proof (Z.mod_pos_bound (x+1) k Hk).
  destruct (Z.eqb_spec ((x + 1) mod k) 0); nia.
Qed.

Lemma DayFromYear_succ y : DayFromYear (y + 1) = DayFromYear y + DaysInYear y.
Proof.
  unfold DayFromYear, DaysInYear.
  replace (y + 1 - 1969) with (y - 1969 + 1) by lia.
  replace (y + 1 - 1901) with (y - 1901 + 1) by lia.
  replace (y + 1 - 1601) with (y - 1601 + 1) by lia.
  rewrite !step_div by lia.
  replace (y - 1969 + 1) with (y + (-492) * 4) by lia.
  replace (y - 1901 + 1) with (y + (-19) * 100) by lia.
  replace (y - 1601 + 1) with (y + (-4) * 400) by lia.
  rewrite !Z.mod_add by lia.
  pose proof (Z.div_mod y 4 ltac:(lia)). pose proof (Z.mod_pos_bound y 4 ltac:(lia)).
  pose proof (Z.div_mod y 100 ltac:(lia)). pose proof (Z.mod_pos_bound y 100 ltac:(lia)).
  pose proof (Z.div_mod y 400 ltac:(lia)). pose proof (Z.mod_pos_bound y 400 ltac:(lia)).
  destruct (Z.eqb_spec (y mod 4) 0), (Z.eqb_spec (y mod 100) 0), (Z.eqb_spec (y mod 400) 0); simpl; lia.
Qed.

Lemma DaysInYear_leapOf y : DaysInYear y = 365 + leapOf y.
Proof.
  assert (H : DaysInYear y = 365 ∨ DaysInYear y = 366).
  { unfold DaysInYear. repeat destruct (negb _); auto. }
  unfold leapOf. by destruct H as [-> | ->].
Qed.

Lemma leapOf_range y : 0 <= leapOf y <= 1.
Proof. unfold leapOf. destruct (_ =? _); lia. Qed.

Lemma DayFromYear_lt y y' : y < y' → DayFromYear y < DayFromYear y'.
Proof.
  intros H. pose proof (DateFacts.DayFromYear_bounds y).
  pose proof (DateFacts.DayFromYear_bounds y'). lia.
Qed.

Lemma YearFromTime_unique tv y :
  DayFromYear y <= Day tv < DayFromYear (y + 1) → YearFromTime tv = y.
Proof.
  intros Hy. pose proof (DateFacts.YearFromTime_days tv) as HY.
  destruct (Z.lt_trichotomy (YearFromTime tv) y) as [Hlt | [Heq | Hgt]]; [|done|].
  - assert (DayFromYear (YearFromTime tv + 1) <= DayFromYear y).
    { destruct (Z.eq_dec (YearFromTime tv + 1) y) as [->|]; [lia|].
      apply Z.lt_le_incl, DayFromYear_lt. lia. }
    lia.
  - assert (DayFromYear (y + 1) <= DayFromYear (YearFromTime tv)).
    { destruct (Z.eq_dec (y + 1) (YearFromTime tv)) as [->|]; [lia|].
      apply Z.lt_le_incl, DayFromYear_lt. lia. }
    lia.
Qed.

Lemma month_cases m : 0 <= m <= 11 →
  m = 0 ∨ m = 1 ∨ m = 2 ∨ m = 3 ∨ m = 4 ∨ m = 5 ∨ m = 6 ∨ m = 7 ∨ m = 8
  ∨ m = 9 ∨ m = 10 ∨ m = 11.
Proof. lia. Qed.

Lemma monthStart_succ y m : 0 <= m <= 11 →
  monthStart (leapOf y) (m + 1) = monthStart (leapOf y) m + DaysInMonth y m.
Proof.
  intros Hm. destruct (month_cases m Hm) as [->|[->|[->|[->|[->|[->|[->|[->|[->|[->|[->| ->]]]]]]]]]]]; simpl; lia.
Qed.

Lemma InLeapYear_leapOf tv : InLeapYear tv = leapOf (YearFromTime tv).
Proof. reflexivity. Qed.

Lemma DayWithinYear_range tv :
  0 <= DayWithinYear tv < 365 + InLeapYear tv.
Proof.
  unfold DayWithinYear. pose proof (DateFacts.YearFromTime_days tv) as H.
  rewrite DayFromYear_succ, DaysInYear_leapOf in H.
  rewrite InLeapYear_leapOf. lia.
Qed.

(** The month found brackets the day within the year. *)
Lemma MonthFromTime_bracket tv :
  monthStart (InLeapYear tv) (MonthFromTime tv) <= DayWithinYear tv
  < monthStart (InLeapYear tv) (MonthFromTime tv + 1).
Proof.
  pose proof (DayWithinYear_range tv) as Hr.
  pose proof (DateFacts.InLeapYear_range tv) as Hl.
  unfold MonthFromTime.
  repeat match goal with
         | |- context [if ?a <? ?b then _ else _] => destruct (Z.ltb_spec a b)
         end; simpl; lia.
Qed.

Lemma DateFromTime_range tv :
  1 <= DateFromTime tv <= DaysInMonth (YearFromTime tv) (MonthFromTime tv).
Proof.
  pose proof (MonthFromTime_bracket tv) as Hb.
  rewrite InLeapYear_leapOf in Hb.
  rewrite monthStart_succ in Hb by apply DateFacts.MonthFromTime_range.
  unfold DateFromTime. rewrite InLeapYear_leapOf. lia.
Qed.

Lemma MonthFromTime_unique tv m :
  0 <= m <= 11 →
  monthStart (InLeapYear tv) m <= DayWithinYear tv
  < monthStart (InLeapYear tv) (m + 1) →
  MonthFromTime tv = m.
Proof.
  intros Hm Hb.
  pose proof (DateFacts.InLeapYear_range tv) as Hl.
  destruct (month_cases m Hm) as [->|[->|[->|[->|[->|[->|[->|[->|[->|[->|[->| ->]]]]]]]]]]];
    simpl in Hb; unfold MonthFromTime;
    repeat match goal with
         | |- context [if ?a <? ?b then _ else _] => destruct (Z.ltb_spec a b)
         end; lia.
Qed.

(** The fields read off a time value whose day is a proper calendar date
    are that date. *)
Lemma fields_of_MakeDay tv y m dt :
  0 <= m <= 11 → 1 <= dt <= DaysInMonth y m →
  Day tv = MakeDay y m dt →
  YearFromTime tv = y ∧ MonthFromTime tv = m ∧ DateFromTime tv = dt.
Proof.
  intros Hm Hdt Hday.
  unfold MakeDay in Hday.
  rewrite (Z.div_small m 12), (Z.mod_small m 12), Z.add_0_r in Hday by lia.
  fold (leapOf y) in Hday.
  pose proof (leapOf_range y) as Hl.
  pose proof (monthStart_succ y m Hm) as Hs.
  assert (Hms : 0 <= monthStart (leapOf y) m
                ∧ monthStart (leapOf y) (m + 1) <= 365 + leapOf y).
  { destruct (month_cases m Hm) as [->|[->|[->|[->|[->|[->|[->|[->|[->|[->|[->| ->]]]]]]]]]]]; simpl; lia. }
  assert (HY : YearFromTime tv = y).
  { apply YearFromTime_unique. rewrite DayFromYear_succ, DaysInYear_leapOf. lia. }
  assert (HM : MonthFromTime tv = m).
  { apply MonthFromTime_unique; [done|].
    rewrite InLeapYear_leapOf, HY. unfold DayWithinYear. rewrite HY. lia. }
  repeat split; [done..|].
  unfold DateFromTime, DayWithinYear. rewrite InLeapYear_leapOf, HM, HY. lia.
Qed.

Lemma Day_fields tv :
  Day tv = DayFromYear (YearFromTime tv)
           + monthStart (leapOf (YearFromTime tv)) (MonthFromTime tv)
           + DateFromTime tv - 1.
Proof. unfold DateFromTime, DayWithinYear. rewrite InLeapYear_leapOf. lia. Qed.

Lemma MakeDay_proper y m dt : 0 <= m <= 11 →
  MakeDay y m dt = DayFromYear y + monthStart (leapOf y) m + dt - 1.
Proof.
  intros Hm. unfold MakeDay.
  by rewrite (Z.div_small m 12), (Z.mod_small m 12), Z.add_0_r by lia.
Qed.

Lemma MakeDay_nextMonth y m dt : 0 <= m <= 11 →
  MakeDay y (m + 1) dt = MakeDay (nextMonth y m).1 (nextMonth y m).2 dt.
Proof.
  intros Hm. unfold nextMonth.
  destruct (Z.eqb_spec m 11) as [-> | Hne]; [|reflexivity].
  unfold MakeDay, fst, snd.
  change ((11 + 1) / 12) with 1. change ((11 + 1) mod 12) with 0.
  change (0 / 12) with 0. change (0 mod 12) with 0.
  by rewrite (Z.add_0_r (y + 1)).
Qed.

Lemma nextMonth_range y m : 0 <= m <= 11 → 0 <= (nextMonth y m).2 <= 11.
Proof. intros Hm. unfold nextMonth. destruct (Z.eqb_spec m 11); simpl; lia. Qed.

Lemma MakeDay_month_later tv :
  MakeDay (YearFromTime tv) (MonthFromTime tv + 1) (DateFromTime tv)
  = Day tv + DaysInMonth (YearFromTime tv) (MonthFromTime tv).
Proof.
  pose proof (DateFacts.MonthFromTime_range tv) as Hm.
  rewrite (Day_fields tv).
  set (y := YearFromTime tv). set (m := MonthFromTime tv) in *.
  set (dt := DateFromTime tv).
  rewrite MakeDay_nextMonth by done. unfold nextMonth.
  destruct (Z.eqb_spec m 11) as [-> | Hne]; simpl fst; simpl snd.
  - rewrite MakeDay_proper by lia. rewrite DayFromYear_succ, DaysInYear_leapOf.
    simpl. lia.
  - rewrite MakeDay_proper by lia. rewrite monthStart_succ by lia. lia.
Qed.

Lemma MakeDay_year_later tv :
  MakeDay (YearFromTime tv + 1) (MonthFromTime tv) (DateFromTime tv)
  = Day tv + (if MonthFromTime tv <? 2 then DaysInYear (YearFromTime tv)
              else DaysInYear (YearFromTime tv + 1)).
Proof.
  pose proof (DateFacts.MonthFromTime_range tv) as Hm.
  rewrite (Day_fields tv), MakeDay_proper by done.
  set (y := YearFromTime tv). set (m := MonthFromTime tv) in *.
  rewrite DayFromYear_succ, !DaysInYear_leapOf.
  destruct (month_cases m Hm) as [->|[->|[->|[->|[->|[->|[->|[->|[->|[->|[->| ->]]]]]]]]]]]; simpl; lia.
Qed.

Lemma advance_MONTHLY_clipped tza tv :
  let lt := Date.LocalTime tza tv in
  calculateNextRecurringDate tza (Some tv) (Some "MONTHLY")
  = TimeClip (tv + DaysInMonth (YearFromTime lt) (MonthFromTime lt) * msPerDay).
Proof.
  intros lt. rewrite calculateNextRecurringDate_MONTHLY.
  unfold setMonth, getMonth, js_add; simpl. fold lt.
  rewrite MakeDay_month_later, DateFacts.MakeDate_Day.
  unfold UTC, lt, LocalTime. f_equal. lia.
Qed.

Lemma advance_YEARLY_clipped tza tv :
  let lt := Date.LocalTime tza tv in
  calculateNextRecurringDate tza (Some tv) (Some "YEARLY")
  = TimeClip (tv + (if MonthFromTime lt <? 2 then DaysInYear (YearFromTime lt)
                    else DaysInYear (YearFromTime lt + 1)) * msPerDay).
Proof.
  intros lt. rewrite calculateNextRecurringDate_YEARLY.
  unfold setFullYear, getFullYear, js_add; simpl. fold lt.
  rewrite MakeDay_year_later, DateFacts.MakeDate_Day.
  unfold UTC, lt, LocalTime. f_equal. lia.
Qed.

Lemma fields_days_later tza tv n y m dt :
  0 <= m <= 11 → 1 <= dt <= DaysInMonth y m →
  Day (LocalTime tza tv) + n = MakeDay y m dt →
  getFullYear tza (Some (tv + n * msPerDay)) = Some y
  ∧ getMonth tza (Some (tv + n * msPerDay)) = Some m
  ∧ getDate tza (Some (tv + n * msPerDay)) = Some dt.
Proof.
  intros Hm Hdt Hday.
  unfold getFullYear, getMonth, getDate; simpl.
  destruct (fields_of_MakeDay (LocalTime tza (tv + n * msPerDay)) y m dt)
    as (-> & -> & ->); try done.
  rewrite <- Hday. unfold LocalTime, Day.
  replace (tv + n * msPerDay + tza) with (tv + tza + n * msPerDay) by lia.
  by rewrite Z.div_add.
Qed.

Lemma leapOf_succ y : leapOf y = 1 → leapOf (y + 1) = 0.
Proof.
  unfold leapOf, DaysInYear.
  destruct (Z.eqb_spec (y mod 4) 0) as [H4|H4]; simpl; [|done].
  intros _.
  destruct (Z.eqb_spec ((y + 1) mod 4) 0) as [H4'|H4']; simpl; [|done].
  pose proof (Z.div_mod y 4 ltac:(lia)).
  pose proof (Z.div_mod (y + 1) 4 ltac:(lia)). lia.
Qed.

End CalendarFacts.

Ltac valid_time :=
  unfold validTime; split; apply Z.leb_le; vm_compute; reflexivity.

(** X1.  MONTHLY moves a date by exactly the length of the month it lies
    in (28 to 31 days), keeping the local time of day, whenever the moved
    instant is a date. *)
Theorem monthly_adds_month_length tza tv :
  let lt := Date.LocalTime tza tv in
  let len := DaysInMonth (Date.YearFromTime lt) (Date.MonthFromTime lt) in
  validTime (tv + len * Date.msPerDay) →
  calculateNextRecurringDate tza (Some tv) (Some "MONTHLY")
  = Some (tv + len * Date.msPerDay)
  ∧ 28 <= len <= 31.
Proof.
  intros lt len Hv. split.
  - rewrite CalendarFacts.advance_MONTHLY_clipped.
    by apply DateFacts.TimeClip_in_range.
  - pose proof (CalendarFacts.leapOf_range (Date.YearFromTime lt)) as Hl.
    subst len.
    destruct (CalendarFacts.month_cases _ (DateFacts.MonthFromTime_range lt))
      as [H|[H|[H|[H|[H|[H|[H|[H|[H|[H|[H|H]]]]]]]]]]];
      rewrite H; simpl; lia.
Qed.

Lemma monthly_adds_month_length_witness :
  calculateNextRecurringDate 0 (Some 1706659200000) (Some "MONTHLY")
  = Some (1706659200000 + 31 * Date.msPerDay)
  ∧ 28 <= 31 <= 31.
Proof.
  apply (monthly_adds_month_length 0 1706659200000). valid_time.
Defined.

(** Where MONTHLY lands, in calendar terms. *)
Lemma monthly_fields tza tv :
  let lt := Date.LocalTime tza tv in
  let Y := Date.YearFromTime lt in
  let M := Date.MonthFromTime lt in
  let D := Date.DateFromTime lt in
  let next := nextMonth Y M in
  let d' := calculateNextRecurringDate tza (Some tv) (Some "MONTHLY") in
  validTime (tv + DaysInMonth Y M * Date.msPerDay) →
  (D <= DaysInMonth next.1 next.2 →
   localFields tza d' = Some (next.1, next.2, D))
  ∧ (DaysInMonth next.1 next.2 < D →
     localFields tza d'
     = Some (next.1, next.2 + 1, D - DaysInMonth next.1 next.2)).
Proof.
  intros lt Y M D next d' Hv.
  pose proof (DateFacts.MonthFromTime_range lt) as Hm. fold M in Hm.
  pose proof (CalendarFacts.DateFromTime_range lt) as Hd. fold Y M D in Hd.
  pose proof (CalendarFacts.nextMonth_range Y M Hm) as Hn. fold next in Hn.
  assert (Hday : Date.Day lt + DaysInMonth Y M
                 = Date.MakeDay next.1 next.2 D).
  { rewrite <- CalendarFacts.MakeDay_month_later.
    apply CalendarFacts.MakeDay_nextMonth, Hm. }
  subst d'. rewrite CalendarFacts.advance_MONTHLY_clipped. fold lt Y M.
  rewrite (DateFacts.TimeClip_in_range _ Hv).
  pose proof (CalendarFacts.leapOf_range Y) as HlY.
  pose proof (CalendarFacts.leapOf_range next.1) as Hl.
  assert (HD31 : D <= 31).
  { destruct (CalendarFacts.month_cases M Hm)
      as [H|[H|[H|[H|[H|[H|[H|[H|[H|[H|[H|H]]]]]]]]]]];
      rewrite H in Hd; simpl in Hd; lia. }
  unfold localFields.
  split; intros Hcmp.
  - destruct (CalendarFacts.fields_days_later tza tv (DaysInMonth Y M)
                next.1 next.2 D) as (-> & -> & ->); [done | lia | done | done].
  - assert (Hshort : next.2 <= 10 ∧ DaysInMonth next.1 (next.2 + 1) = 31
                     ∧ 28 <= DaysInMonth next.1 next.2).
    { destruct (CalendarFacts.month_cases _ Hn)
        as [H|[H|[H|[H|[H|[H|[H|[H|[H|[H|[H|H]]]]]]]]]]];
        rewrite H in *; simpl in *; lia. }
    destruct (CalendarFacts.fields_days_later tza tv (DaysInMonth Y M)
                next.1 (next.2 + 1) (D - DaysInMonth next.1 next.2))
      as (-> & -> & ->); [lia | lia | | done].
    etrans; [exact Hday|]. rewrite !CalendarFacts.MakeDay_proper by lia.
    rewrite CalendarFacts.monthStart_succ by lia. lia.
Qed.

(** X2.  MONTHLY from a day of the month that the next month also has
    (always so up to the 28th) lands on the same day of the next month,
    January of the next year after December. *)
Theorem monthly_same_day tza tv :
  let lt := Date.LocalTime tza tv in
  let Y := Date.YearFromTime lt in
  let M := Date.MonthFromTime lt in
  let D := Date.DateFromTime lt in
  let next := nextMonth Y M in
  validTime (tv + DaysInMonth Y M * Date.msPerDay) →
  D <= DaysInMonth next.1 next.2 →
  localFields tza (calculateNextRecurringDate tza (Some tv) (Some "MONTHLY"))
  = Some (next.1, next.2, D).
Proof. intros lt Y M D next Hv Hd. by apply monthly_fields. Qed.

Lemma monthly_same_day_witness :
  localFields 0 (calculateNextRecurringDate 0 (Some 1734220800000)
                   (Some "MONTHLY"))
  = Some (2025, 0, 15).
Proof.
  apply (monthly_same_day 0 1734220800000); [valid_time|].
  apply Z.leb_le. vm_compute. reflexivity.
Defined.

(** X3.  MONTHLY from a day the next month does not have does not stop at
    the end of that month: it runs over into the month after it, by as
    many days as the next month is short (Jan 31 gives Mar 2 in a leap
    year, Mar 3 otherwise). *)
Theorem monthly_overflow tza tv :
  let lt := Date.LocalTime tza tv in
  let Y := Date.YearFromTime lt in
  let M := Date.MonthFromTime lt in
  let D := Date.DateFromTime lt in
  let next := nextMonth Y M in
  validTime (tv + DaysInMonth Y M * Date.msPerDay) →
  DaysInMonth next.1 next.2 < D →
  localFields tza (calculateNextRecurringDate tza (Some tv) (Some "MONTHLY"))
  = Some (next.1, next.2 + 1, D - DaysInMonth next.1 next.2).
Proof. intros lt Y M D next Hv Hd. by apply monthly_fields. Qed.

Lemma monthly_overflow_witness :
  localFields 0 (calculateNextRecurringDate 0 (Some 1706659200000)
                   (Some "MONTHLY"))
  = Some (2024, 2, 2).
Proof.
  apply (monthly_overflow 0 1706659200000); [valid_time|].
  apply Z.ltb_lt. vm_compute. reflexivity.
Defined.

(** X4.  YEARLY moves a date by exactly 365 or 366 days: by the length of
    the year it lies in when it lies in January or February, by the length
    of the following year otherwise. *)
Theorem yearly_adds_year_length tza tv :
  let lt := Date.LocalTime tza tv in
  let Y := Date.YearFromTime lt in
  let len := if Date.MonthFromTime lt <? 2 then Date.DaysInYear Y
             else Date.DaysInYear (Y + 1) in
  validTime (tv + len * Date.msPerDay) →
  calculateNextRecurringDate tza (Some tv) (Some "YEARLY")
  = Some (tv + len * Date.msPerDay)
  ∧ 365 <= len <= 366.
Proof.
  intros lt Y len Hv. split.
  - rewrite CalendarFacts.advance_YEARLY_clipped.
    by apply DateFacts.TimeClip_in_range.
  - pose proof (CalendarFacts.leapOf_range Y).
    pose proof (CalendarFacts.leapOf_range (Y + 1)).
    subst len. rewrite !CalendarFacts.DaysInYear_leapOf.
    destruct (_ <? _); lia.
Qed.

Lemma yearly_adds_year_length_witness :
  calculateNextRecurringDate 0 (Some 1706659200000) (Some "YEARLY")
  = Some (1706659200000 + 366 * Date.msPerDay)
  ∧ 365 <= 366 <= 366.
Proof.
  apply (yearly_adds_year_length 0 1706659200000). valid_time.
Defined.

(** X5.  YEARLY lands on the same month and day of the next year, except
    from Feb 29, which the next year does not have: then it lands on
    Mar 1. *)
Theorem yearly_same_day tza tv :
  let lt := Date.LocalTime tza tv in
  let Y := Date.YearFromTime lt in
  let M := Date.MonthFromTime lt in
  let D := Date.DateFromTime lt in
  let len := if M <? 2 then Date.DaysInYear Y else Date.DaysInYear (Y + 1) in
  let d' := calculateNextRecurringDate tza (Some tv) (Some "YEARLY") in
  validTime (tv + len * Date.msPerDay) →
  (¬ (M = 1 ∧ D = 29) → localFields tza d' = Some (Y + 1, M, D))
  ∧ (M = 1 ∧ D = 29 → localFields tza d' = Some (Y + 1, 2, 1)).
Proof.
  intros lt Y M D len d' Hv.
  pose proof (DateFacts.MonthFromTime_range lt) as Hm. fold M in Hm.
  pose proof (CalendarFacts.DateFromTime_range lt) as Hd. fold Y M D in Hd.
  pose proof (CalendarFacts.MakeDay_year_later lt) as Hday.
  fold Y M D len in Hday.
  subst d'. rewrite CalendarFacts.advance_YEARLY_clipped. fold lt Y M len.
  rewrite (DateFacts.TimeClip_in_range _ Hv).
  pose proof (CalendarFacts.leapOf_range Y) as HlY.
  pose proof (CalendarFacts.leapOf_range (Y + 1)) as Hl.
  unfold localFields.
  split.
  - intros Hno.
    destruct (CalendarFacts.fields_days_later tza tv len (Y + 1) M D)
      as (-> & -> & ->); [done | | by symmetry | done].
    destruct (CalendarFacts.month_cases M Hm)
      as [H|[H|[H|[H|[H|[H|[H|[H|[H|[H|[H|H]]]]]]]]]]];
      rewrite H in *; simpl in *; lia.
  - intros [HM HD]. rewrite HM, HD in *. simpl in Hd.
    assert (leapOf Y = 1) as HY1 by lia.
    pose proof (CalendarFacts.leapOf_succ Y HY1) as HY0.
    destruct (CalendarFacts.fields_days_later tza tv len (Y + 1) 2 1)
      as (-> & -> & ->); [lia | simpl; lia | | done].
    etrans; [symmetry; exact Hday|].
    rewrite !CalendarFacts.MakeDay_proper by lia.
    rewrite HY0. simpl. lia.
Qed.

Lemma yearly_same_day_witness :
  localFields 0 (calculateNextRecurringDate 0 (Some 1709164800000)
                   (Some "YEARLY")) = Some (2024 + 1, 2, 1)
  ∧ localFields 0 (calculateNextRecurringDate 0 (Some 1706659200000)
                     (Some "YEARLY")) = Some (2024 + 1, 0, 31).
Proof.
  split.
  - apply (yearly_same_day 0 1709164800000); [valid_time|].
    split; vm_compute; reflexivity.
  - apply (yearly_same_day 0 1706659200000); [valid_time|].
    intros [H _]. vm_compute in H. discriminate H.
Defined.

(** Feb 29, 2024 with YEARLY is Mar 1, 2025; Dec 15, 2024 with MONTHLY
    is Jan 15, 2025; Jan 31, 2023 with MONTHLY is Mar 3, 2023. *)
Example recurrences_across_boundaries :
  localFields 0 (calculateNextRecurringDate 0 (Some 1709164800000)
                   (Some "YEARLY")) = Some (2025, 2, 1)
  ∧ localFields 0 (calculateNextRecurringDate 0 (Some 1734220800000)
                     (Some "MONTHLY")) = Some (2025, 0, 15)
  ∧ localFields 0 (Some 1675123200000) = Some (2023, 0, 31)
  ∧ localFields 0 (calculateNextRecurringDate 0 (Some 1675123200000)
                     (Some "MONTHLY")) = Some (2023, 2, 3).
Proof. by vm_compute. Qed.

(** X6.  An Invalid Date as start date gives an Invalid Date back, for
    every interval: none of the four setters revives it. *)
Theorem advance_of_invalid_date tza interval :
  calculateNextRecurringDate tza None interval = None
  ∧ localFields tza (calculateNextRecurringDate tza None interval) = None.
Proof.
  by rewrite advance_invalid.
Qed.





(* ===================================================================== *)
(** ** Reading: get and list                                              *)
(* ===================================================================== *)

Lemma serializeAmount_Transaction (r : Transaction) : serializeAmount r = r.
Proof. by destruct r. Qed.

Lemma serializeAmount_WithAccount (e : TransactionWithAccount) :
  serializeAmount e = e.
Proof. by destruct e as [[] ?]. Qed.

Lemma serializeAmount_list (l : list TransactionWithAccount) :
  serializeAmount <$> l = l.
Proof.
  induction l as [|e l IH]; [done|].
  by rewrite fmap_cons, serializeAmount_WithAccount, IH.
Qed.

(** How a call of [getTransaction] can end. *)
Lemma getTransaction_inv env id w c w' :
  getTransaction env id w = (c, w') →
  w' = w
  ∧ ∀ r, c = Normal r →
      transactions (db w) !! id = Some r
      ∧ ∃ uid user,
          auth env = Normal (Some uid) ∧ uid ≠ EmptyString
          ∧ users (db w) !! uid = Some user
          ∧ userId r = user_id user.
Proof.
  unfold getTransaction, bind, await, throw, ret, user_findUnique,
    transaction_findUnique.
  destruct (auth env) as [[[|a uid]|]|e] eqn:Hauth; simpl;
    try (intros [= <- <-]; split; [done | intros ? [=]]).
  destruct (users (db w) !! String a uid) as [user|] eqn:Hu; simpl;
    [|intros [= <- <-]; split; [done | intros ? [=]]].
  destruct (transactions (db w) !! id) as [r|] eqn:Hr; simpl;
    [|intros [= <- <-]; split; [done | intros ? [=]]].
  destruct (String.eqb (userId r) (user_id user)) eqn:Hown;
    intros [= <- <-]; (split; [done|]); intros r' Hr'; [|done].
  assert (r' = r) as -> by (destruct r; injection Hr' as <-; reflexivity).
  split; [done|].
  exists (String a uid), user. string_eqb. done.
Qed.

(** X8.  [getTransaction] never writes, and the only row it ever returns
    is the one stored under the requested id, and only when that row
    belongs to the user of the signed-in caller. *)
Theorem getTransaction_own_row env id w c w' :
  getTransaction env id w = (c, w') →
  w' = w
  ∧ ∀ r, c = Normal r →
      transactions (db w) !! id = Some r
      ∧ ∃ uid user,
          auth env = Normal (Some uid) ∧ uid ≠ EmptyString
          ∧ users (db w) !! uid = Some user
          ∧ userId r = user_id user.
Proof. apply getTransaction_inv. Qed.

Lemma getTransaction_own_row_witness :
  home = home
  ∧ ∀ r, Normal salary = Normal r →
      transactions (db home) !! "tx_0" = Some r
      ∧ ∃ uid user,
          auth alice = Normal (Some uid) ∧ uid ≠ EmptyString
          ∧ users (db home) !! uid = Some user
          ∧ userId r = user_id user.
Proof.
  apply (getTransaction_own_row alice "tx_0" home). vm_compute. reflexivity.
Defined.

Lemma insert_desc_perm x l : insert_desc x l ≡ₚ x :: l.
Proof.
  induction l as [|y l IH]; simpl; [done|].
  destruct (date_geb _ _); [done|].
  rewrite IH. apply Permutation_swap.
Qed.

Lemma orderBy_date_desc_perm l : orderBy_date_desc l ≡ₚ l.
Proof.
  unfold orderBy_date_desc. induction l as [|x l IH]; simpl; [done|].
  by rewrite insert_desc_perm, IH.
Qed.

(** What a listing that succeeds was computed from. *)
Lemma getUserTransactions_success env query w data w' :
  getUserTransactions env query w = (Normal (Success data), w') →
  w' = w
  ∧ ∃ uid user,
      auth env = Normal (Some uid) ∧ uid ≠ EmptyString
      ∧ users (db w) !! uid = Some user
      ∧ data =
        orderBy_date_desc
          ((λ r, mkWithAccount r (accounts (db w) !! accountId r))
             <$> filter (λ r, where_matches (user_id user) query r = true)
                   (snd <$> map_to_list (transactions (db w)))).
Proof.
  unfold getUserTransactions, try_catch, bind, await, throw, ret,
    user_findUnique, transaction_findMany.
  destruct (auth env) as [[[|a uid]|]|e] eqn:Hauth; simpl; try done.
  destruct (users (db w) !! String a uid) as [user|] eqn:Hu; simpl;
    [|done].
  intros [= <- <-]. split; [done|].
  exists (String a uid), user. rewrite serializeAmount_list. done.
Qed.

(** X9.  A listing that succeeds never writes and holds exactly the stored
    rows that pass the filter, each joined with the account row its
    [accountId] names: nothing else is listed and no matching row is left
    out. *)
Theorem getUserTransactions_rows env query w data w' :
  getUserTransactions env query w = (Normal (Success data), w') →
  w' = w
  ∧ ∃ uid user,
      auth env = Normal (Some uid) ∧ users (db w) !! uid = Some user
      ∧ ∀ e, e ∈ data ↔
             (∃ id, transactions (db w) !! id = Some (row e))
             ∧ where_matches (user_id user) query (row e) = true
             ∧ account e = accounts (db w) !! accountId (row e).
Proof.
  intros H. apply getUserTransactions_success in H
    as (-> & uid & user & Hauth & _ & Hu & ->).
  split; [done|]. exists uid, user. do 2 (split; [done|]).
  intros e. rewrite orderBy_date_desc_perm.
  rewrite list_elem_of_fmap. setoid_rewrite list_elem_of_filter.
  setoid_rewrite list_elem_of_fmap. split.
  - intros (r & -> & Hm & [id r'] & -> & Hin). simpl.
    apply elem_of_map_to_list in Hin. eauto.
  - intros ([id Hid] & Hm & Hacc). exists (row e). split.
    + destruct e as [r a]; simpl in *. by rewrite Hacc.
    + split; [done|]. exists (id, row e). split; [done|].
      by apply elem_of_map_to_list.
Qed.

Lemma getUserTransactions_rows_witness :
  home = home
  ∧ ∃ uid user,
      auth alice = Normal (Some uid) ∧ users (db home) !! uid = Some user
      ∧ ∀ e, e ∈ [mkWithAccount salary (Some (mkAccount "alice" 100))] ↔
             (∃ id, transactions (db home) !! id = Some (row e))
             ∧ where_matches (user_id user) emptyQuery (row e) = true
             ∧ account e = accounts (db home) !! accountId (row e).
Proof.
  apply (getUserTransactions_rows alice emptyQuery home).
  vm_compute. reflexivity.
Defined.

(** X10.  In a listing that succeeds every equality filter of the query is
    honoured.  Without a [userId] key all listed rows belong to the caller;
    a [userId] key in the query takes the place of the caller's id, so the
    rows listed are then those of the user the query names. *)
Theorem getUserTransactions_filters env query w data w' :
  getUserTransactions env query w = (Normal (Success data), w') →
  ∃ uid user,
    auth env = Normal (Some uid) ∧ users (db w) !! uid = Some user
    ∧ ∀ e, e ∈ data →
        (query_userId query = None → userId (row e) = user_id user)
        ∧ (∀ other, query_userId query = Some other →
             userId (row e) = other)
        ∧ (∀ a, query_accountId query = Some a → accountId (row e) = a)
        ∧ (∀ t, query_type query = Some t → type (row e) = t)
        ∧ (∀ c, query_category query = Some c → category (row e) = c).
Proof.
  intros H. apply getUserTransactions_success in H
    as (-> & uid & user & Hauth & _ & Hu & ->).
  exists uid, user. do 2 (split; [done|]).
  intros e. rewrite orderBy_date_desc_perm, list_elem_of_fmap.
  intros (r & -> & Hin). apply list_elem_of_filter in Hin as [Hm _].
  simpl. unfold where_matches, matches_opt in Hm.
  repeat (apply andb_prop in Hm as [Hm ?]). string_eqb.
  repeat split.
  - intros Hq. by rewrite Hq in Hm.
  - intros other Hq. by rewrite Hq in Hm.
  - intros a Hq. rewrite Hq in *. by string_eqb.
  - intros t Hq. rewrite Hq in *. by string_eqb.
  - intros c Hq. rewrite Hq in *. by string_eqb.
Qed.

Lemma getUserTransactions_filters_witness :
  ∃ uid user,
    auth alice = Normal (Some uid) ∧ users (db home) !! uid = Some user
    ∧ ∀ e, e ∈ [mkWithAccount gift (Some (mkAccount "bob" 500))] →
        (query_userId (mkQuery (Some "bob") None None None) = None →
         userId (row e) = user_id user)
        ∧ (∀ other,
             query_userId (mkQuery (Some "bob") None None None) = Some other →
             userId (row e) = other)
        ∧ (∀ a, query_accountId (mkQuery (Some "bob") None None None)
                = Some a → accountId (row e) = a)
        ∧ (∀ t, query_type (mkQuery (Some "bob") None None None) = Some t →
             type (row e) = t)
        ∧ (∀ c, query_category (mkQuery (Some "bob") None None None)
                = Some c → category (row e) = c).
Proof.
  apply (getUserTransactions_filters alice
           (mkQuery (Some "bob") None None None) home _ home).
  vm_compute. reflexivity.
Defined.

(** Alice lists with [{ userId: "bob" }] and is given Bob's row; with an
    empty query she is given her own. *)
Example list_with_userId_key :
  fst (getUserTransactions alice (mkQuery (Some "bob") None None None) home)
  = Normal (Success [mkWithAccount gift (Some (mkAccount "bob" 500))])
  ∧ fst (getUserTransactions alice emptyQuery home)
    = Normal (Success [mkWithAccount salary (Some (mkAccount "alice" 100))]).
Proof. by vm_compute. Qed.

Lemma date_geb_total a b : date_geb a b = false → date_geb b a = true.
Proof.
  destruct a as [x|], b as [y|]; simpl; try done.
  intros H. apply Z.leb_gt in H. apply Z.leb_le. lia.
Qed.

Lemma insert_desc_sorted x l :
  Sorted date_desc l → Sorted date_desc (insert_desc x l).
Proof.
  induction 1 as [|y l Hs IH Hhd]; simpl.
  - by repeat constructor.
  - destruct (date_geb (date (row x)) (date (row y))) eqn:Hxy.
    + by repeat constructor.
    + constructor; [done|].
      destruct Hhd as [|z l Hyz]; simpl.
      * constructor. by apply date_geb_total.
      * destruct (date_geb (date (row x)) (date (row z)));
          constructor; [by apply date_geb_total | done].
Qed.

Lemma orderBy_date_desc_sorted l : Sorted date_desc (orderBy_date_desc l).
Proof.
  unfold orderBy_date_desc. induction l as [|x l IH]; simpl.
  - constructor.
  - by apply insert_desc_sorted.
Qed.

(** X11.  A listing that succeeds is in date order, newest first: no row
    is followed by a row with a later date. *)
Theorem getUserTransactions_newest_first env query w data w' :
  getUserTransactions env query w = (Normal (Success data), w') →
  Sorted date_desc data
  ∧ ∀ i a b, data !! i = Some a → data !! S i = Some b →
      ∀ ta tb, date (row a) = Some ta → date (row b) = Some tb → tb <= ta.
Proof.
  intros H. apply getUserTransactions_success in H
    as (-> & uid & user & Hauth & _ & Hu & ->).
  pose proof (orderBy_date_desc_sorted
    ((λ r, mkWithAccount r (accounts (db w) !! accountId r))
       <$> filter (λ r, where_matches (user_id user) query r = true)
             (snd <$> map_to_list (transactions (db w))))) as Hs.
  split; [done|].
  revert Hs. generalize (orderBy_date_desc
    ((λ r, mkWithAccount r (accounts (db w) !! accountId r))
       <$> filter (λ r, where_matches (user_id user) query r = true)
             (snd <$> map_to_list (transactions (db w))))).
  intros l Hs. induction Hs as [|x l Hs IH Hhd]; intros i a b Ha Hb.
  - done.
  - destruct i as [|i]; simpl in *.
    + injection Ha as ->. destruct Hhd as [|y l Hxy]; [done|].
      simpl in Hb. injection Hb as ->.
      intros ta tb Hta Htb. unfold date_desc in Hxy.
      rewrite Hta, Htb in Hxy. simpl in Hxy. by apply Z.leb_le.
    + by apply (IH i).
Qed.

Lemma getUserTransactions_newest_first_witness :
  Sorted date_desc
    [mkWithAccount (created_row 0 busPass (mkUser "alice"))
       (Some (mkAccount "alice" 80));
     mkWithAccount salary (Some (mkAccount "alice" 80))]
  ∧ ∀ i a b,
      [mkWithAccount (created_row 0 busPass (mkUser "alice"))
         (Some (mkAccount "alice" 80));
       mkWithAccount salary (Some (mkAccount "alice" 80))] !! i = Some a →
      [mkWithAccount (created_row 0 busPass (mkUser "alice"))
         (Some (mkAccount "alice" 80));
       mkWithAccount salary (Some (mkAccount "alice" 80))] !! S i = Some b →
      ∀ ta tb, date (row a) = Some ta → date (row b) = Some tb → tb <= ta.
Proof.
  apply (getUserTransactions_newest_first alice emptyQuery afterBusPass
           _ afterBusPass).
  vm_compute. reflexivity.
Defined.

(* ===================================================================== *)
(** ** Writing: what else create and update guarantee                     *)
(* ===================================================================== *)

(** X12.  A create call the abuse limiter denies fails with the rate-limit
    message when the reason is a rate limit and with "Request blocked"
    otherwise, whatever the store holds (the user row is not even looked
    up), and writes nothing. *)
Theorem createTransaction_denied env data w uid dec :
  auth env = Normal (Some uid) → uid ≠ EmptyString →
  protect env uid = Normal dec → isDenied dec = true →
  createTransaction env data w
  = (Normal (Failure (if reason_isRateLimit dec
                      then "Too many requests. Please try again later."
                      else "Request blocked")), w).
Proof.
  intros Hauth Hne Hp Hden.
  unfold createTransaction, try_catch, bind, await, throw, ret.
  rewrite Hauth. destruct uid as [|c uid]; [done|].
  rewrite Hp, Hden. by destruct (reason_isRateLimit dec).
Qed.

Lemma createTransaction_denied_witness :
  createTransaction
    (mkEnv (Normal (Some "clerk_nobody"))
       (λ _, Normal (mkDecision true true)) "tx_1" 0) groceries home
  = (Normal (Failure "Too many requests. Please try again later."), home).
Proof.
  apply (createTransaction_denied
           (mkEnv (Normal (Some "clerk_nobody"))
              (λ _, Normal (mkDecision true true)) "tx_1" 0)
           groceries home "clerk_nobody" (mkDecision true true));
    try reflexivity.
  discriminate.
Defined.

(** X13.  The two views are invalidated exactly when a write committed: a
    create or update that succeeds adds "/dashboard" and then
    "/account/<data.accountId>" to the revalidated paths, and one that
    fails adds nothing. *)
Theorem revalidated_after_write env id data w :
  let paths (r : ActionResult Transaction) :=
    match r with
    | Success _ => ["/dashboard"; "/account/" +:+ data_accountId data]
    | Failure _ => []
    end in
  (∃ r w', createTransaction env data w = (Normal r, w')
           ∧ revalidated w' = revalidated w ++ paths r)
  ∧ (∃ r w', updateTransaction env id data w = (Normal r, w')
             ∧ revalidated w' = revalidated w ++ paths r).
Proof.
  intros paths. split.
  - destruct (createTransaction_cases env data w)
      as [[msg Hf] | (? & ? & ? & _ & _ & _ & _ & _ & _ & _ & Hs)].
    + eexists _, _. split; [exact Hf|]. simpl. by rewrite app_nil_r.
    + eexists _, _. split; [exact Hs|]. done.
  - destruct (updateTransaction_cases env id data w)
      as [[msg Hf] | (? & ? & ? & ? & _ & _ & _ & _ & _ & _ & Hs)].
    + eexists _, _. split; [exact Hf|]. simpl. by rewrite app_nil_r.
    + eexists _, _. split; [exact Hs|]. done.
Qed.

(** X14.  A transaction that was just created can be read back: after a
    create that succeeds, [getTransaction] for the same caller and the new
    id returns exactly the row the create returned. *)
Theorem create_then_get env data w created w' :
  createTransaction env data w = (Normal (Success created), w') →
  getTransaction env (uuid env) w' = (Normal created, w').
Proof.
  intros H.
  destruct (createTransaction_cases env data w)
    as [[msg Hf] | (uid & user & a & Hauth & Hne & _ & Hu & _ & _ & _ & Hs)];
    rewrite H in *; simplify_eq.
  etrans;
    [ apply (getTransaction_found _ _ _ uid user
               (created_row (LocalTZA env) data user));
      try done; simpl; apply lookup_insert_eq
    | by rewrite serializeAmount_Transaction ].
Qed.

Lemma create_then_get_witness :
  getTransaction alice (uuid alice)
    (snd (createTransaction alice groceries home))
  = (Normal (created_row 0 groceries (mkUser "alice")),
     snd (createTransaction alice groceries home)).
Proof.
  apply (create_then_get alice groceries home). vm_compute. reflexivity.
Defined.

(** X15.  An update can be read back too: after an update that succeeds,
    [getTransaction] for the same caller and id returns exactly the
    updated row. *)
Theorem update_then_get env id data w updated w' :
  updateTransaction env id data w = (Normal (Success updated), w') →
  getTransaction env id w' = (Normal updated, w').
Proof.
  intros H.
  destruct (updateTransaction_cases env id data w)
    as [[msg Hf]
       | (uid & user & o & a & Hauth & Hne & Hu & _ & Hown & _ & Hs)];
    rewrite H in *; simplify_eq.
  etrans;
    [ apply (getTransaction_found _ _ _ uid user
               (updated_row (LocalTZA env) data o));
      try done; simpl; apply lookup_insert_eq
    | by rewrite serializeAmount_Transaction ].
Qed.

Lemma update_then_get_witness :
  getTransaction alice "tx_0" (snd (updateTransaction alice "tx_0" refund home))
  = (Normal (updated_row 0 refund salary),
     snd (updateTransaction alice "tx_0" refund home)).
Proof.
  apply (update_then_get alice "tx_0" refund home). vm_compute. reflexivity.
Defined.

(** X16.  Create writes to no account but the caller's own: after a create
    that succeeds the account [data.accountId] belongs to the caller's
    user, and every other account row is what it was. *)
Theorem create_touches_own_account env data w created w' :
  createTransaction env data w = (Normal (Success created), w') →
  ∃ uid user,
    auth env = Normal (Some uid) ∧ users (db w) !! uid = Some user
    ∧ (account_userId <$> accounts (db w) !! data_accountId data)
      = Some (user_id user)
    ∧ ∀ id', id' ≠ data_accountId data →
             accounts (db w') !! id' = accounts (db w) !! id'.
Proof.
  intros H.
  destruct (createTransaction_cases env data w)
    as [[msg Hf] | (uid & user & a & Hauth & _ & _ & Hu & Ha & Hown & _ & Hs)];
    rewrite H in *; simplify_eq.
  exists uid, user. repeat split; try done.
  - by rewrite Ha; simpl; rewrite Hown.
  - intros id' Hne. simpl. by rewrite lookup_insert_ne.
Qed.

Lemma create_touches_own_account_witness :
  ∃ uid user,
    auth alice = Normal (Some uid) ∧ users (db home) !! uid = Some user
    ∧ (account_userId <$> accounts (db home) !! data_accountId groceries)
      = Some (user_id user)
    ∧ ∀ id', id' ≠ data_accountId groceries →
             accounts (db (snd (createTransaction alice groceries home)))
               !! id'
             = accounts (db home) !! id'.
Proof.
  apply (create_touches_own_account alice groceries home
           (created_row 0 groceries (mkUser "alice"))).
  vm_compute. reflexivity.
Defined.

(** X17.  Neither create nor update, whatever they return, adds a user or
    an account, removes one, or changes who owns an account: the users
    table and the owner of every account id stay as they were. *)
Theorem accounts_keep_their_owner env id data w :
  (∀ r w', createTransaction env data w = (r, w') →
     users (db w') = users (db w)
     ∧ ∀ id', (account_userId <$> accounts (db w') !! id')
              = (account_userId <$> accounts (db w) !! id'))
  ∧ (∀ r w', updateTransaction env id data w = (r, w') →
       users (db w') = users (db w)
       ∧ ∀ id', (account_userId <$> accounts (db w') !! id')
                = (account_userId <$> accounts (db w) !! id')).
Proof.
  split; intros r w' H.
  - destruct (createTransaction_cases env data w)
      as [[msg Hf] | (uid & user & a & _ & _ & _ & _ & Ha & _ & _ & Hs)];
      rewrite H in *; simplify_eq; [done|].
    split; [done|]. intros id'. simpl.
    destruct (decide (data_accountId data = id')) as [<- | Hne].
    + by rewrite lookup_insert_eq, Ha.
    + by rewrite lookup_insert_ne.
  - destruct (updateTransaction_cases env id data w)
      as [[msg Hf] | (uid & user & o & a & _ & _ & _ & _ & _ & Ha & Hs)];
      rewrite H in *; simplify_eq; [done|].
    split; [done|]. intros id'. simpl.
    destruct (decide (data_accountId data = id')) as [<- | Hne].
    + by rewrite lookup_insert_eq, Ha.
    + by rewrite lookup_insert_ne.
Qed.

Lemma accounts_keep_their_owner_witness :
  users (db (snd (updateTransaction alice "tx_0" toBob home)))
  = users (db home)
  ∧ ∀ id',
      (account_userId
         <$> accounts (db (snd (updateTransaction alice "tx_0" toBob home)))
               !! id')
      = (account_userId <$> accounts (db home) !! id').
Proof.
  destruct (accounts_keep_their_owner alice "tx_0" toBob home) as [_ H].
  apply (H (fst (updateTransaction alice "tx_0" toBob home))).
  vm_compute. reflexivity.
Defined.



(** X19.  "Every balance is the sum of the signed amounts of the account's
    rows" is kept by every run of calls in which each call is a create, or
    an update that leaves the transaction in its account and whose old and
    new amounts are below [2^52], whether the calls succeed or fail. *)
Theorem balanced_along_runs w w' :
  rtc step w w' → balanced (db w) → balanced (db w').
Proof.
  induction 1 as [w | w w1 w' Hstep _ IH]; [done|].
  intros Hb. apply IH. clear IH.
  destruct Hstep as [env data w r w1 H | env id data w r w1 Hsame Hsafe H].
  - by eapply createTransaction_balanced.
  - destruct (transactions (db w) !! id) as [original|] eqn:Ho.
    + destruct (Hsame original eq_refl) as [Hacc Hsafe0].
      by eapply (updateTransaction_balanced env id data w original).
    + destruct (updateTransaction_cases env id data w)
        as [[msg Hf] | (? & ? & o & ? & _ & _ & _ & Ho' & _)];
        [|congruence].
      rewrite H in Hf. by simplify_eq.
Qed.

Lemma balanced_along_runs_witness :
  balanced
    (db (snd (updateTransaction alice "tx_1" refund
                (snd (createTransaction alice groceries home))))).
Proof.
  apply (balanced_along_runs home).
  - eapply rtc_l;
      [eapply (step_create alice groceries home); apply surjective_pairing|].
    eapply rtc_l; [|apply rtc_refl].
    eapply (step_update alice "tx_1" refund); [| |apply surjective_pairing].
    + intros original Ho. vm_compute in Ho. injection Ho as <-.
      split; [reflexivity | by vm_compute].
    + by vm_compute.
  - apply (bool_decide_unpack _). vm_compute. exact I.
Defined.

(** Beyond that size the sum is lost even by an update that stays in its
    account: after the edit of an income of 1 to [10^16] the balance of
    [acc_B] is [10^16 + 1] with one row worth [10^16]. *)
Example update_large_unbalanced :
  let w1 := snd (createTransaction alice penny home) in
  let w2 := snd (updateTransaction alice "tx_1" fortune w1) in
  balanceOf w1 "acc_B" = Some (storedSum (db w1) "acc_B")
  ∧ balanceOf w2 "acc_B" = Some 10000000000000001
  ∧ storedSum (db w2) "acc_B" = 10000000000000000.
Proof. by vm_compute. Qed.

Lemma incremented_0 a : incremented a 0 = a.
Proof. destruct a. unfold incremented. simpl. by rewrite Z.add_0_r. Qed.

(** X20.  An update that succeeds and changes neither the type nor the
    amount leaves the whole accounts table as it was, whatever else it
    changes on the row. *)
Theorem update_same_amount_keeps_balances env id data w original updated w' :
  transactions (db w) !! id = Some original →
  data_type data = type original →
  data_amount data = amount original →
  updateTransaction env id data w = (Normal (Success updated), w') →
  accounts (db w') = accounts (db w).
Proof.
  intros Ho Hty Ham H.
  apply updateTransaction_success in H
    as (o & a & Ho' & Ha & _ & _ & -> & _).
  assert (o = original) as -> by congruence.
  rewrite (netChange_unchanged _ _ Hty Ham), incremented_0.
  by apply insert_id.
Qed.

Lemma update_same_amount_keeps_balances_witness :
  accounts (db (snd (updateTransaction alice "tx_0" moved home)))
  = accounts (db home).
Proof.
  apply (update_same_amount_keeps_balances alice "tx_0" moved home salary
           (updated_row 0 moved salary));
    vm_compute; reflexivity.
Defined.

(** X21.  Two updates of the same transaction in a row, both naming the
    same account and both succeeding, with the stored amount and the two
    new amounts below [2^52], move its balance by the difference between
    the last new value and the first old value: the intermediate edit
    cancels out. *)
Theorem update_twice env1 env2 id data1 data2 w original r1 w1 r2 w2 :
  transactions (db w) !! id = Some original →
  data_accountId data1 = data_accountId data2 →
  safeAmount (amount original) →
  safeAmount (data_amount data1) →
  safeAmount (data_amount data2) →
  updateTransaction env1 id data1 w = (Normal (Success r1), w1) →
  updateTransaction env2 id data2 w1 = (Normal (Success r2), w2) →
  ∃ prior,
    balanceOf w (data_accountId data2) = Some prior
    ∧ balanceOf w2 (data_accountId data2)
      = Some (prior + (newChange data2 - oldChange original)).
Proof.
  intros Ho Hacc Hs0 Hs1 Hs2 H1 H2.
  apply updateTransaction_success in H1
    as (o & a & Ho' & Ha & -> & _ & Hacc1 & Htx1).
  assert (o = original) as -> by congruence.
  apply updateTransaction_success in H2
    as (o2 & a2 & Ho2 & Ha2 & _ & _ & Hacc2 & _).
  rewrite Htx1, lookup_insert_eq in Ho2. injection Ho2 as <-.
  rewrite Hacc1, Hacc, lookup_insert_eq in Ha2. injection Ha2 as <-.
  exists (balance a). unfold balanceOf.
  rewrite <- Hacc, Ha, Hacc2, Hacc, lookup_insert_eq. simpl.
  rewrite (netChange_safe original data1) by done.
  rewrite (netChange_safe (updated_row (LocalTZA env1) data1 original) data2)
    by done.
  change (oldChange (updated_row (LocalTZA env1) data1 original))
    with (newChange data1).
  split; [done|]. f_equal. lia.
Qed.

Lemma update_twice_witness :
  ∃ prior,
    balanceOf home (data_accountId groceries) = Some prior
    ∧ balanceOf
        (snd (updateTransaction alice "tx_0" groceries
                (snd (updateTransaction alice "tx_0" refund home))))
        (data_accountId groceries)
      = Some (prior + (newChange groceries - oldChange salary)).
Proof.
  apply (update_twice alice alice "tx_0" refund groceries home salary
           (updated_row 0 refund salary)
           (snd (updateTransaction alice "tx_0" refund home))
           (updated_row 0 groceries (updated_row 0 refund salary)));
    vm_compute; reflexivity.
Defined.

(** With large amounts the intermediate edit leaves a trace: an income of
    1 edited to [10^16] and then to 3 has moved the balance by 4. *)
Example update_twice_large :
  let w1 := snd (createTransaction alice penny home) in
  let three := mkData "INCOME" 3 "found" jan15 "other" "acc_B" false None in
  let w2 := snd (updateTransaction alice "tx_1" fortune w1) in
  let w3 := snd (updateTransaction alice "tx_1" three w2) in
  balanceOf w1 "acc_B" = Some 1
  ∧ balanceOf w2 "acc_B" = Some 10000000000000001
  ∧ balanceOf w3 "acc_B" = Some 5.
Proof. by vm_compute. Qed.

(* ===================================================================== *)
(** ** The page                                                           *)
(* ===================================================================== *)

Section Page.
Context {Accounts Categories : Type}.
Variable getUserAccounts : Js Accounts.
Variable defaultCategories : Categories.

(** X22.  Whenever the page renders, the form is in edit mode exactly when
    it is handed initial data, and that data is the row stored under the
    [edit] id, a row of the signed-in caller. *)
Theorem page_edit_mode env searchParams w
    (props : FormProps Accounts Categories) w' :
  AddTransactionPage env getUserAccounts defaultCategories searchParams w
  = (Normal props, w') →
  (props_editMode props = true ↔ is_Some (props_initialData props))
  ∧ ∀ r, props_initialData props = Some r →
      ∃ id uid user,
        searchParams ≫= edit = Some id
        ∧ transactions (db w') !! id = Some r
        ∧ auth env = Normal (Some uid)
        ∧ users (db w') !! uid = Some user
        ∧ userId r = user_id user.
Proof.
  unfold AddTransactionPage, bind, ret.
  destruct (getUserAccounts w) as [[accs|e] w1]; [|done].
  destruct (searchParams ≫= edit) as [[|c id]|] eqn:Hedit; simpl.
  - intros [= <- <-]. simpl. split; [|done].
    split; [done | by intros [? [=]]].
  - destruct (getTransaction env (String c id) w1) as [[r|e] w2] eqn:Hget;
      [|done].
    intros [= <- <-]. simpl. split; [by split; eauto|].
    intros r' [= <-].
    destruct (getTransaction_inv _ _ _ _ _ Hget) as [-> Hr].
    destruct (Hr r eq_refl) as (Hlk & uid & user & Hauth & _ & Hu & Hown).
    by exists (String c id), uid, user.
  - intros [= <- <-]. simpl. split; [|done].
    split; [done | by intros [? [=]]].
Qed.

(** X23.  Without a usable [edit] key (none, or the empty string) the page
    looks no transaction up: it renders in create mode with what
    [getUserAccounts] returned, signed in or not.  With an [edit] key, an
    error thrown by [getTransaction] (no caller, no user row, no such row
    of the caller) is thrown by the page. *)
Theorem page_lookup_only_on_edit env searchParams w accounts w1 :
  getUserAccounts w = (Normal accounts, w1) →
  (truthy (searchParams ≫= edit) = false →
   AddTransactionPage env getUserAccounts defaultCategories searchParams w
   = (Normal (mkFormProps accounts defaultCategories false None), w1))
  ∧ (∀ id e w2,
       searchParams ≫= edit = Some id → id ≠ EmptyString →
       getTransaction env id w1 = (Throw e, w2) →
       AddTransactionPage env getUserAccounts defaultCategories searchParams w
       = (Throw e, w2)).
Proof.
  intros Hacc. unfold AddTransactionPage, bind, ret. rewrite Hacc.
  split.
  - by destruct (searchParams ≫= edit) as [[|c id]|].
  - intros id e w2 -> Hne Hget. destruct id as [|c id]; [done|].
    by rewrite Hget.
Qed.

End Page.

Lemma page_edit_mode_witness :
  let props :=
    mkFormProps [("acc_A", 100)] tt true (Some salary) in
  (props_editMode props = true ↔ is_Some (props_initialData props))
  ∧ ∀ r, props_initialData props = Some r →
      ∃ id uid user,
        Some (mkSearchParams (Some "tx_0")) ≫= edit = Some id
        ∧ transactions (db home) !! id = Some r
        ∧ auth alice = Normal (Some uid)
        ∧ users (db home) !! uid = Some user
        ∧ userId r = user_id user.
Proof.
  apply (page_edit_mode (ret [("acc_A", 100)]) tt alice
           (Some (mkSearchParams (Some "tx_0"))) home).
  vm_compute. reflexivity.
Defined.

Lemma page_lookup_only_on_edit_witness :
  AddTransactionPage anonymous (ret [("acc_A", 100)]) tt None home
  = (Normal (mkFormProps [("acc_A", 100)] tt false None), home)
  ∧ AddTransactionPage alice (ret [("acc_A", 100)]) tt
      (Some (mkSearchParams (Some "tx_9"))) home
    = (Throw "Transaction not found", home).
Proof.
  split.
  - apply (page_lookup_only_on_edit (ret [("acc_A", 100)]) tt anonymous
             None home); reflexivity.
  - apply (proj2 (page_lookup_only_on_edit (ret [("acc_A", 100)]) tt alice
                    (Some (mkSearchParams (Some "tx_9"))) home
                    [("acc_A", 100)] home eq_refl) "tx_9");
      [reflexivity | discriminate |].
    vm_compute. reflexivity.
Defined.

(** Alice opens the page to edit Bob's row: the page throws.  An anonymous
    visitor without an [edit] key gets the empty form. *)
Example page_examples :
  fst (AddTransactionPage alice (ret [("acc_A", 100)]) tt
         (Some (mkSearchParams (Some "tx_9"))) home)
  = Throw "Transaction not found"
  ∧ fst (AddTransactionPage anonymous (ret [("acc_A", 100)]) tt None home)
    = Normal (mkFormProps [("acc_A", 100)] tt false None)
  ∧ fst (AddTransactionPage anonymous (ret [("acc_A", 100)]) tt
           (Some (mkSearchParams (Some EmptyString))) home)
    = Normal (mkFormProps [("acc_A", 100)] tt false None)
  ∧ fst (AddTransactionPage alice (ret [("acc_A", 100)]) tt
           (Some (mkSearchParams (Some "tx_0"))) home)
    = Normal (mkFormProps [("acc_A", 100)] tt true (Some salary)).
Proof. by vm_compute. Qed.

(* ===================================================================== *)
(** ** The seeding loop                                                   *)
(* ===================================================================== *)

Lemma seed_step_row tza draws state i :
  seed_step tza draws state i
  = (state.1 ++ [seed_row tza draws i],
     (state.2 + signedNumber (seed_type (seed_row tza draws i))
                  (seed_amount (seed_row tza draws i)))%float).
Proof. reflexivity. Qed.

Lemma seed_fold tza draws (indices : list Z) state :
  foldl (seed_step tza draws) state indices
  = (state.1 ++ (seed_row tza draws <$> indices),
     foldl (λ total r,
              (total + signedNumber (seed_type r) (seed_amount r))%float)
           state.2 (seed_row tza draws <$> indices)).
Proof.
  revert state. induction indices as [|i indices IH]; intros [rows total].
  - simpl. by rewrite app_nil_r.
  - simpl foldl. rewrite IH, seed_step_row. rewrite fmap_cons.
    cbn [fst snd foldl]. by rewrite <- app_assoc.
Qed.

Lemma seed_loop_rows tza draws :
  (seed_loop tza draws).1 = seed_row tza draws <$> seed_indices.
Proof. unfold seed_loop. by rewrite seed_fold. Qed.

Lemma seed_indices_lookup k i :
  seed_indices !! k = Some i ↔ (k < 91)%nat ∧ i = 90 - Z.of_nat k.
Proof.
  unfold seed_indices. rewrite list_lookup_fmap. split.
  - intros H. destruct (seq 0 91 !! k) as [j|] eqn:Hj; [|done].
    apply lookup_seq in Hj as [-> Hk]. simpl in H.
    injection H as <-. done.
  - intros [Hk ->].
    by rewrite (proj2 (lookup_seq 0 91 k k) (conj eq_refl Hk)).
Qed.

(** X24.  The loop pushes 91 rows; every one of them is an INCOME or an
    EXPENSE row of the account "account-id" and the user "user-id", with
    status COMPLETED and with its creation and update stamps equal to its
    date. *)
Theorem seed_rows_shape tza draws :
  length (seed_loop tza draws).1 = 91%nat
  ∧ Forall (λ r,
       seed_accountId r = "account-id" ∧ seed_userId r = "user-id"
       ∧ seed_status r = "COMPLETED" ∧ validType (seed_type r)
       ∧ seed_createdAt r = seed_date r ∧ seed_updatedAt r = seed_date r)
      (seed_loop tza draws).1.
Proof.
  rewrite seed_loop_rows. split.
  - by rewrite length_fmap.
  - apply Forall_fmap, Forall_forall. intros i _. simpl.
    repeat split; try done.
    unfold validType. destruct (draw_below (draws i)); auto.
Qed.

(** X25.  The total the loop ends with, which is the balance the script
    writes, is what adding the pushed rows' signed amounts ([+amount] for
    INCOME, [-amount] for EXPENSE) to 0 gives when they are added as
    numbers in the order of the array, every sum rounded to binary64; each
    row's signed amount is the same when its sign is read the way the
    update action reads a stored row (negative for EXPENSE, positive
    otherwise). *)
Theorem seed_total_is_signed_sum tza draws :
  (seed_loop tza draws).2 = sum_in_order (seed_loop tza draws).1
  ∧ Forall (λ r, signedNumber (seed_type r) (seed_amount r)
                 = signedNumber_update (seed_type r) (seed_amount r))
      (seed_loop tza draws).1.
Proof.
  split.
  - rewrite seed_loop_rows. unfold seed_loop, sum_in_order.
    by rewrite seed_fold.
  - rewrite seed_loop_rows. apply Forall_fmap, Forall_forall.
    intros i _. simpl. by destruct (draw_below (draws i)).
Qed.

(** The order matters: the amounts 0.1, 0.2 and 0.3 add up to
    0.6000000000000001 in the order of the array and to 0.6 backwards. *)
Example sum_in_order_not_backwards :
  let income amount :=
    mkSeedRow "INCOME" amount "Seed transaction" jan31 "COMPLETED"
      USER_ID ACCOUNT_ID jan31 jan31 in
  let rows := [income 0x1.999999999999ap-4%float;
               income 0x1.999999999999ap-3%float;
               income 0x1.3333333333333p-2%float] in
  sum_in_order rows = 0x1.3333333333334p-1%float
  ∧ sum_backwards rows = 0x1.3333333333333p-1%float
  ∧ PrimFloat.eqb (sum_in_order rows) (sum_backwards rows) = false.
Proof. by vm_compute. Qed.

Lemma subDays_valid tza t i :
  validTime (t - i * Date.msPerDay) →
  subDays tza (Some t) i = Some (t - i * Date.msPerDay).
Proof.
  intros Hv. unfold subDays, addDays, Date.new_Date.
  destruct (Z.eqb_spec (- i) 0) as [H0 | Hne].
  - assert (i = 0) as -> by lia. f_equal. lia.
  - rewrite DateFacts.setDate_getDate_add.
    replace (t + - i * Date.msPerDay) with (t - i * Date.msPerDay) by lia.
    by apply DateFacts.TimeClip_in_range.
Qed.

(** X26.  The row at position [k] of the array is the one made in the pass
    with index [90 - k]: it carries that pass's random type and amount and
    is dated that many days before the clock reading of the pass, so the
    rows run from 90 days ago to today. *)
Theorem seed_row_of_pass tza draws k r :
  (seed_loop tza draws).1 !! k = Some r →
  let i := 90 - Z.of_nat k in
  0 <= i <= 90
  ∧ seed_type r = (if draw_below (draws i) then "INCOME" else "EXPENSE")
  ∧ seed_amount r = draw_amount (draws i)
  ∧ ∀ t, draw_now (draws i) = Some t →
         validTime (t - i * Date.msPerDay) →
         seed_date r = Some (t - i * Date.msPerDay).
Proof.
  rewrite seed_loop_rows, list_lookup_fmap. intros H i.
  destruct (seed_indices !! k) as [j|] eqn:Hj; [|done].
  apply seed_indices_lookup in Hj as [Hk ->]. fold i in H.
  simpl in H. injection H as <-. simpl.
  split; [lia|]. do 2 (split; [done|]).
  intros t -> Hv. by apply subDays_valid.
Qed.

Lemma seed_row_of_pass_witness :
  let draws := λ i : Z,
    mkDraw jan31 (Z.even i)
      (PrimFloat.of_uint63 (Uint63.of_Z i) * 5.25)%float in
  let i := 90 - Z.of_nat 89 in
  0 <= i <= 90
  ∧ seed_type (seed_row 0 draws 1)
    = (if draw_below (draws i) then "INCOME" else "EXPENSE")
  ∧ seed_amount (seed_row 0 draws 1) = draw_amount (draws i)
  ∧ ∀ t, draw_now (draws i) = Some t →
         validTime (t - i * Date.msPerDay) →
         seed_date (seed_row 0 draws 1) = Some (t - i * Date.msPerDay).
Proof.
  apply (seed_row_of_pass 0
           (λ i : Z, mkDraw jan31 (Z.even i)
                       (PrimFloat.of_uint63 (Uint63.of_Z i) * 5.25)%float)
           89).
  vm_compute. reflexivity.
Defined.

(** With the clock at 2024-01-31, the first row is dated 2023-11-02 and
    the last 2024-01-31. *)
Example seed_first_and_last :
  let draws := λ i : Z,
    mkDraw jan31 (Z.even i)
      (PrimFloat.of_uint63 (Uint63.of_Z i) * 5.25)%float in
  (seed_date <$> (seed_loop 0 draws).1 !! 0%nat) = Some (Some 1698883200000)
  ∧ (seed_date <$> (seed_loop 0 draws).1 !! 90%nat) = Some jan31
  ∧ localFields 0 (Some 1698883200000) = Some (2023, 10, 2).
Proof. by vm_compute. Qed.

(* ===================================================================== *)
(** ** The text clean-up of [scanReceipt]                                 *)
(* ===================================================================== *)

Section ReceiptText.
Local Open Scope N_scope.

Lemma strip_keep c rest :
  c ≠ 96 → strip_fences (c :: rest) = c :: strip_fences rest.
Proof.
  intros Hc. simpl. destruct rest as [|c2 [|c3 rest3]]; try done.
  unfold is_fence. by rewrite (proj2 (N.eqb_neq c 96) Hc).
Qed.

Lemma strip_keep2 c rest :
  c ≠ 96 → strip_fences (96 :: c :: rest) = 96 :: c :: strip_fences rest.
Proof.
  intros Hc.
  assert (strip_fences (96 :: c :: rest) = 96 :: strip_fences (c :: rest)) as ->.
  { simpl. destruct rest as [|c3 rest3]; [done|].
    unfold is_fence. rewrite (proj2 (N.eqb_neq c 96) Hc). done. }
  by rewrite strip_keep.
Qed.

Lemma has_fence_cons c t :
  has_fence (c :: t) ↔ (c = 96 ∧ starts2 t) ∨ has_fence t.
Proof.
  split.
  - intros ([|x a] & b & H); simpl in H.
    + injection H as -> ->. left. split; [done|]. by exists b.
    + injection H as -> ->. right. by exists a, b.
  - intros [[-> [b ->]] | (a & b & ->)].
    + by exists [], b.
    + by exists (c :: a), b.
Qed.

Lemma strip_no_fence_aux n : ∀ t, (length t ≤ n)%nat → ¬ has_fence (strip_fences t).
Proof.
  induction n as [|n IH]; intros t Hn.
  { destruct t; [|simpl in Hn; lia]. intros ([|? ?] & b & H); done. }
  destruct t as [|c1 rest].
  { intros ([|? ?] & b & H); done. }
  simpl in Hn.
  assert (Hrest : ¬ has_fence (strip_fences rest)) by (apply IH; lia).
  assert (Hkeep : ¬ (c1 = 96 ∧ starts2 (strip_fences rest)) →
                  ¬ has_fence (c1 :: strip_fences rest)).
  { intros H1 H2. apply has_fence_cons in H2 as [H2 | H2]; tauto. }
  destruct rest as [|c2 [|c3 rest3]].
  - simpl. apply Hkeep. intros [_ [b Hb]]. done.
  - simpl. apply Hkeep. intros [_ [b Hb]]. done.
  - destruct (is_fence c1 c2 c3) eqn:Hf.
    + change (strip_fences (c1 :: c2 :: c3 :: rest3)) with
        (if is_fence c1 c2 c3 then
           match rest3 with
           | c4 :: c5 :: c6 :: c7 :: rest7 =>
               if is_json c4 c5 c6 c7 then strip_fences rest7
               else strip_fences rest3
           | _ => strip_fences rest3
           end
         else c1 :: strip_fences (c2 :: c3 :: rest3)).
      rewrite Hf.
      assert (H3 : ¬ has_fence (strip_fences rest3)) by (apply IH; simpl in *; lia).
      destruct rest3 as [|c4 [|c5 [|c6 [|c7 rest7]]]]; try done.
      destruct (is_json c4 c5 c6 c7); [|done].
      apply IH. simpl in *. lia.
    + change (strip_fences (c1 :: c2 :: c3 :: rest3)) with
        (if is_fence c1 c2 c3 then
           match rest3 with
           | c4 :: c5 :: c6 :: c7 :: rest7 =>
               if is_json c4 c5 c6 c7 then strip_fences rest7
               else strip_fences rest3
           | _ => strip_fences rest3
           end
         else c1 :: strip_fences (c2 :: c3 :: rest3)).
      rewrite Hf. apply Hkeep. intros [-> [b Hb]].
      destruct (N.eq_dec c2 96) as [-> | Hc2].
      * destruct (N.eq_dec c3 96) as [-> | Hc3]; [done|].
        rewrite strip_keep2 in Hb by done. by injection Hb.
      * rewrite strip_keep in Hb by done. by injection Hb.
Qed.

Lemma strip_no_fence t : ¬ has_fence (strip_fences t).
Proof. by apply (strip_no_fence_aux (length t)). Qed.

Lemma trimStart_split t :
  ∃ ws, t = ws ++ trimStart t ∧ Forall (λ c, isWhiteSpace c = true) ws.
Proof.
  induction t as [|c t (ws & Hws & Hall)]; simpl.
  - by exists [].
  - destruct (isWhiteSpace c) eqn:Hc.
    + exists (c :: ws). split; [by rewrite Hws at 1 | by constructor].
    + by exists [].
Qed.

Lemma trimStart_head t : solid (head (trimStart t)).
Proof.
  induction t as [|c t IH]; simpl; [by intros ? [=]|].
  destruct (isWhiteSpace c) eqn:Hc; [done|].
  by intros x [= <-].
Qed.

Lemma trimStart_solid t : solid (head t) → trimStart t = t.
Proof.
  destruct t as [|c t]; [done|]. intros H. simpl.
  by rewrite (H c eq_refl).
Qed.

Lemma trimEnd_split t :
  ∃ ws, t = trimEnd t ++ ws ∧ Forall (λ c, isWhiteSpace c = true) ws.
Proof.
  destruct (trimStart_split (reverse t)) as (ws & Hws & Hall).
  exists (reverse ws). split.
  - unfold trimEnd. rewrite <- reverse_app, <- Hws.
    by rewrite reverse_involutive.
  - by apply Forall_reverse.
Qed.

Lemma trimEnd_last t : solid (last (trimEnd t)).
Proof.
  unfold trimEnd. rewrite last_reverse. apply trimStart_head.
Qed.

Lemma trimEnd_solid t : solid (last t) → trimEnd t = t.
Proof.
  intros H. unfold trimEnd. rewrite (trimStart_solid (reverse t)).
  - apply reverse_involutive.
  - by rewrite head_reverse.
Qed.

Lemma trimEnd_head t : solid (head t) → solid (head (trimEnd t)).
Proof.
  intros H. destruct (trimEnd_split t) as (ws & Hws & _).
  destruct (trimEnd t) as [|c t'] eqn:Ht; [by intros ? [=]|].
  rewrite Hws in H. done.
Qed.

Lemma has_fence_within x t y : has_fence t → has_fence (x ++ t ++ y).
Proof.
  intros (a & b & ->). exists (x ++ a), (b ++ y).
  by rewrite <- !app_assoc.
Qed.

Lemma trim_no_new_fence t : has_fence (trim t) → has_fence t.
Proof.
  intros H. unfold trim in H.
  destruct (trimStart_split t) as (ws1 & H1 & _).
  destruct (trimEnd_split (trimStart t)) as (ws2 & H2 & _).
  rewrite H1, H2. by apply has_fence_within.
Qed.

Lemma strip_fixed t : ¬ has_fence t → strip_fences t = t.
Proof.
  induction t as [|c1 rest IH]; [done|]. intros Hno.
  assert (Hrest : strip_fences rest = rest).
  { apply IH. intros H. apply Hno. apply has_fence_cons. by right. }
  destruct rest as [|c2 [|c3 rest3]].
  - done.
  - done.
  - change (strip_fences (c1 :: c2 :: c3 :: rest3)) with
        (if is_fence c1 c2 c3 then
           match rest3 with
           | c4 :: c5 :: c6 :: c7 :: rest7 =>
               if is_json c4 c5 c6 c7 then strip_fences rest7
               else strip_fences rest3
           | _ => strip_fences rest3
           end
         else c1 :: strip_fences (c2 :: c3 :: rest3)).
    destruct (is_fence c1 c2 c3) eqn:Hf; [|by rewrite Hrest].
    exfalso. apply Hno. unfold is_fence in Hf.
    apply andb_prop in Hf as [Hf H3]. apply andb_prop in Hf as [H1 H2].
    apply N.eqb_eq in H1, H2, H3. subst. by exists [], rest3.
Qed.

Lemma clean_text_is_clean t :
  ¬ has_fence (clean_text t)
  ∧ solid (head (clean_text t)) ∧ solid (last (clean_text t)).
Proof.
  unfold clean_text. split; [|split].
  - intros H. apply trim_no_new_fence in H. by apply strip_no_fence in H.
  - unfold trim. apply trimEnd_head, trimStart_head.
  - unfold trim. apply trimEnd_last.
Qed.

(** X27.  The cleaned reply of the model never contains a code-fence
    marker (three backticks in a row), and neither begins nor ends with
    white space. *)
Theorem clean_text_clean t :
  ¬ has_fence (clean_text t)
  ∧ solid (head (clean_text t)) ∧ solid (last (clean_text t)).
Proof. apply clean_text_is_clean. Qed.

(** X28.  The texts the clean-up leaves unchanged are exactly those
    without a fence marker and without white space at either end; cleaning
    a second time therefore changes nothing. *)
Theorem clean_text_fixed t :
  (clean_text t = t ↔
   ¬ has_fence t ∧ solid (head t) ∧ solid (last t))
  ∧ clean_text (clean_text t) = clean_text t.
Proof.
  assert (Hfix : ∀ u, ¬ has_fence u ∧ solid (head u) ∧ solid (last u) →
                      clean_text u = u).
  { intros u (Hf & Hh & Hl). unfold clean_text, trim.
    by rewrite strip_fixed, trimStart_solid, trimEnd_solid. }
  split.
  - split; [|apply Hfix]. intros <-. apply clean_text_is_clean.
  - apply Hfix, clean_text_is_clean.
Qed.

(** A fenced reply is reduced to the JSON inside; the word after the fence
    is dropped only when it is [json] in lower case; four backticks leave
    one behind. *)
Example clean_text_examples :
  clean_text (units "```json" ++ [10] ++ units "{}" ++ [10] ++ units "```")
  = units "{}"
  ∧ clean_text (units "```JSON" ++ [10] ++ units "{}" ++ units "``` ")
    = units "JSON" ++ [10] ++ units "{}"
  ∧ clean_text (units "````json{}") = units "`json{}"
  ∧ clean_text (units "  {} ") = units "{}".
Proof. by vm_compute. Qed.

End ReceiptText.
